(** * dl_lab_project: segment-recombination augmentation and the EEG transformer

    A shallow embedding of [src/utils.py] ([interaug], [split_dataset]) and
    of [src/networks.py] ([PositionalEncoding], [TransformerBlock],
    [EEGTransformer]), with the properties stated about them.

    Conventions.
    - Python exceptions are values of [error]; a call that may raise returns
      a [result].
    - NumPy's global random generator is a state [G] threaded through the
      monad [M]; the generator itself is a parameter ([next_raw]), so every
      statement holds for every generator and every seed.
    - An EEG window of shape (1, 22, 1125) is the list of its 22 rows, each a
      list of 1125 samples.  [interaug] is the NumPy part of the function, up
      to the shuffle of the two arrays; [interaug_tensors] is the whole of
      it, with the final conversion [.float()], which rounds every sample to
      32 bits (the rounding of one sample is a parameter, [float32]).  The
      labels are integers, which [.long()] and [.to(device)] leave as they
      are. *)

From Stdlib Require Import List ZArith Arith PeanoNat Bool Lia Permutation.
Import ListNotations.

Set Implicit Arguments.

(** ** Exceptions *)

Inductive error : Set :=
| ValueError
| IndexError
| RuntimeError.

Inductive result (A : Type) : Type :=
| Ok (a : A)
| Raise (e : error).

Arguments Ok {A} a.
Arguments Raise {A} e.

(** ** Python list / ndarray primitives *)

(** [a[i]] for a non-negative index. *)
Definition getitem {A : Type} (a : list A) (i : nat) : result A :=
  match nth_error a i with
  | Some x => Ok x
  | None => Raise IndexError
  end.

(** [a[idx]] for an integer index array [idx] (fancy indexing on axis 0). *)
Fixpoint take {A : Type} (a : list A) (idx : list nat) : result (list A) :=
  match idx with
  | [] => Ok []
  | i :: rest =>
      match getitem a i with
      | Ok x =>
          match take a rest with
          | Ok xs => Ok (x :: xs)
          | Raise e => Raise e
          end
      | Raise e => Raise e
      end
  end.

(** [row[a:b]] for [0 <= a], [0 <= b]; Python clips the bounds. *)
Definition slice {A : Type} (a b : nat) (row : list A) : list A :=
  firstn (b - a) (skipn a row).

(** [row[a:b] = v] where [v] has the length of the slice. *)
Definition set_slice {A : Type} (a b : nat) (row v : list A) : list A :=
  firstn a row ++ v ++ skipn b row.

(** [a[i] = x] for an index in range. *)
Fixpoint setitem {A : Type} (a : list A) (i : nat) (x : A) : list A :=
  match a, i with
  | [], _ => []
  | _ :: t, 0 => x :: t
  | h :: t, S k => h :: setitem t k x
  end.

(** [np.where(label == c)[0]], counting positions from [i]. *)
Fixpoint where_from (i : nat) (label : list Z) (c : Z) : list nat :=
  match label with
  | [] => []
  | l :: rest =>
      if Z.eqb l c then i :: where_from (S i) rest c
      else where_from (S i) rest c
  end.

Definition where_eq (label : list Z) (c : Z) : list nat := where_from 0 label c.

(** ** Facts about the primitives *)

Lemma getitem_Ok {A : Type} (a : list A) (i : nat) (x : A) :
  getitem a i = Ok x <-> nth_error a i = Some x.
Proof.
  unfold getitem. destruct (nth_error a i); split; intros H;
    inversion H; subst; reflexivity.
Qed.

Lemma getitem_lt {A : Type} (a : list A) (i : nat) :
  i < length a -> exists x, getitem a i = Ok x.
Proof.
  intros Hi. unfold getitem.
  destruct (nth_error a i) eqn:E; [eauto|].
  apply nth_error_None in E. lia.
Qed.

Lemma take_Ok {A : Type} (a : list A) (idx : list nat) (xs : list A) :
  take a idx = Ok xs -> Forall2 (fun i x => nth_error a i = Some x) idx xs.
Proof.
  revert xs. induction idx as [|i rest IH]; simpl; intros xs H.
  - inversion H. constructor.
  - destruct (getitem a i) as [x|] eqn:E; [|discriminate].
    destruct (take a rest) as [ys|] eqn:E'; [|discriminate].
    inversion H; subst. constructor; [apply getitem_Ok; exact E|].
    apply IH. reflexivity.
Qed.

Lemma take_In {A : Type} (a : list A) (idx : list nat) (xs : list A) (x : A) :
  take a idx = Ok xs -> In x xs -> exists i, In i idx /\ nth_error a i = Some x.
Proof.
  intros H. apply take_Ok in H.
  induction H as [|i y idx' xs' Hy _ IH]; simpl; intros Hx; [contradiction|].
  destruct Hx as [->|Hx]; [eauto|].
  destruct (IH Hx) as [k [Hk Hn]]. eauto.
Qed.

Lemma take_length {A : Type} (a : list A) (idx : list nat) (xs : list A) :
  take a idx = Ok xs -> length xs = length idx.
Proof.
  intros H. apply take_Ok in H. symmetry. eapply Forall2_length. exact H.
Qed.

Lemma take_in_range {A : Type} (d : A) (a : list A) (idx : list nat) :
  Forall (fun i => i < length a) idx ->
  take a idx = Ok (map (fun i => nth i a d) idx).
Proof.
  induction 1 as [|i rest Hi _ IH]; simpl; [reflexivity|].
  unfold getitem. rewrite (nth_error_nth' a d Hi), IH. reflexivity.
Qed.

Lemma where_from_spec (label : list Z) (c : Z) (i k : nat) :
  In k (where_from i label c) <-> i <= k /\ nth_error label (k - i) = Some c.
Proof.
  revert i. induction label as [|l rest IH]; intros i; simpl.
  - split; [contradiction|]. intros [_ H]. destruct (k - i); discriminate.
  - assert (Hrest : In k (where_from (S i) rest c) <->
                    i <= k /\ k <> i /\ nth_error rest (k - S i) = Some c).
    { rewrite IH. split.
      - intros [H1 H2]. repeat split; [lia|lia|exact H2].
      - intros [H1 [H2 H3]]. split; [lia|exact H3]. }
    destruct (Z.eqb_spec l c) as [->|Hne]; simpl; rewrite ?Hrest.
    + split.
      * intros [<-|[H1 [H2 H3]]].
        -- split; [lia|]. rewrite Nat.sub_diag. reflexivity.
        -- split; [exact H1|].
           replace (k - i) with (S (k - S i)) by lia. exact H3.
      * intros [H1 H2]. destruct (Nat.eq_dec i k) as [->|Hik]; [left; reflexivity|].
        right. repeat split; [exact H1|lia|].
        replace (k - i) with (S (k - S i)) in H2 by lia. exact H2.
    + split.
      * intros [H1 [H2 H3]]. split; [exact H1|].
        replace (k - i) with (S (k - S i)) by lia. exact H3.
      * intros [H1 H2]. destruct (Nat.eq_dec k i) as [->|Hik].
        -- rewrite Nat.sub_diag in H2. simpl in H2. congruence.
        -- repeat split; [exact H1|exact Hik|].
           replace (k - i) with (S (k - S i)) in H2 by lia. exact H2.
Qed.

Lemma where_eq_spec (label : list Z) (c : Z) (k : nat) :
  In k (where_eq label c) <-> nth_error label k = Some c.
Proof.
  unfold where_eq. rewrite where_from_spec, Nat.sub_0_r.
  split; [intros [_ H]; exact H|intros H; split; [lia|exact H]].
Qed.

Lemma where_eq_lt (label : list Z) (c : Z) :
  Forall (fun i => i < length label) (where_eq label c).
Proof.
  apply Forall_forall. intros k Hk. apply where_eq_spec in Hk.
  apply nth_error_Some. congruence.
Qed.

Lemma where_from_values (pre label : list Z) (c : Z) :
  map (fun i => nth i (pre ++ label) 0%Z) (where_from (length pre) label c)
  = filter (fun l => Z.eqb l c) label.
Proof.
  revert pre. induction label as [|l rest IH]; intros pre; simpl; [reflexivity|].
  specialize (IH (pre ++ [l])).
  rewrite <- app_assoc, length_app, Nat.add_1_r in IH. simpl in IH.
  destruct (Z.eqb l c); simpl; rewrite IH; [|reflexivity].
  rewrite app_nth2, Nat.sub_diag by lia. reflexivity.
Qed.

(** [label[np.where(label == c)]] is the sub-list of the labels equal to [c]. *)
Lemma take_where_label (label : list Z) (c : Z) :
  take label (where_eq label c) = Ok (filter (fun l => Z.eqb l c) label).
Proof.
  rewrite take_in_range with (d := 0%Z) by apply where_eq_lt.
  f_equal. exact (where_from_values [] label c).
Qed.

Lemma where_eq_length (label : list Z) (c : Z) :
  length (where_eq label c) = length (filter (fun l => Z.eqb l c) label).
Proof.
  rewrite <- (where_from_values [] label c), length_map. reflexivity.
Qed.

Lemma setitem_length {A : Type} (a : list A) (i : nat) (x : A) :
  length (setitem a i x) = length a.
Proof.
  revert i. induction a as [|h t IH]; intros [|i]; simpl; auto.
Qed.

Lemma setitem_In {A : Type} (a : list A) (i : nat) (x y : A) :
  In y (setitem a i x) -> y = x \/ In y a.
Proof.
  revert i. induction a as [|h t IH]; intros [|i]; simpl; try tauto.
  - intros [H|H]; auto.
  - intros [H|H]; auto. destruct (IH _ H); auto.
Qed.

Lemma setitem_nth_error {A : Type} (a : list A) (i k : nat) (x y : A) :
  nth_error (setitem a i x) k = Some y ->
  (k = i /\ y = x) \/ (k <> i /\ nth_error a k = Some y).
Proof.
  revert i k. induction a as [|h t IH]; intros [|i] [|k]; simpl; intros H;
    try discriminate.
  - inversion H. auto.
  - right. split; [lia|exact H].
  - right. split; [lia|exact H].
  - destruct (IH _ _ H) as [[-> ->]|[Hne Hn]]; [left; auto|right; split; [lia|exact Hn]].
Qed.

(** *** Slices of a row *)

Lemma slice_length {A : Type} (a b : nat) (row : list A) :
  b <= length row -> length (slice a b row) = b - a.
Proof.
  intros Hb. unfold slice. rewrite length_firstn, length_skipn. lia.
Qed.

Lemma set_slice_length {A : Type} (a b : nat) (row v : list A) :
  a <= b -> b <= length row -> length v = b - a ->
  length (set_slice a b row v) = length row.
Proof.
  intros Hab Hb Hv. unfold set_slice.
  rewrite !length_app, length_firstn, length_skipn. lia.
Qed.

(** Reading back the slice that was just written. *)
Lemma slice_set_slice_same {A : Type} (a b : nat) (row v : list A) :
  a <= length row -> length v = b - a ->
  slice a b (set_slice a b row v) = v.
Proof.
  intros Ha Hv. unfold slice, set_slice.
  rewrite skipn_app, length_firstn, Nat.min_l by exact Ha.
  rewrite Nat.sub_diag. simpl.
  rewrite skipn_all2 by (rewrite length_firstn; lia). simpl.
  rewrite firstn_app, Hv, Nat.sub_diag. simpl.
  rewrite app_nil_r. rewrite <- Hv. apply firstn_all.
Qed.

(** A slice that ends before the written one is unchanged. *)
Lemma slice_set_slice_before {A : Type} (a' b' a b : nat) (row v : list A) :
  b' <= a -> a <= length row ->
  slice a' b' (set_slice a b row v) = slice a' b' row.
Proof.
  intros Hb' Ha. unfold slice, set_slice.
  destruct (Nat.le_gt_cases b' a') as [Hle|Hlt].
  - replace (b' - a') with 0 by lia. reflexivity.
  - rewrite skipn_app, length_firstn, Nat.min_l by exact Ha.
    replace (a' - a) with 0 by lia. simpl.
    rewrite firstn_app, length_skipn, length_firstn, Nat.min_l by exact Ha.
    replace (b' - a' - (a - a')) with 0 by lia. simpl. rewrite app_nil_r.
    rewrite skipn_firstn_comm, firstn_firstn.
    f_equal. lia.
Qed.

Lemma map_nth_range {A : Type} (d : A) (a : list A) :
  map (fun i => nth i a d) (seq 0 (length a)) = a.
Proof.
  induction a as [|h t IH]; simpl; [reflexivity|].
  f_equal. rewrite <- seq_shift, map_map. exact IH.
Qed.

(** Indexing with a permutation of all positions rearranges the array. *)
Lemma take_permutation {A : Type} (a : list A) (p : list nat) (xs : list A) :
  Permutation (seq 0 (length a)) p -> take a p = Ok xs -> Permutation a xs.
Proof.
  intros Hp Ht. destruct a as [|d a'] eqn:Ea.
  - simpl in Hp. apply Permutation_nil in Hp. subst p. inversion Ht. constructor.
  - rewrite <- Ea in *. clear Ea a'.
    rewrite take_in_range with (d := d) in Ht.
    + inversion Ht; subst xs. rewrite <- (map_nth_range d a) at 1.
      apply Permutation_map. exact Hp.
    + apply Forall_forall. intros i Hi.
      apply Permutation_sym in Hp. apply (Permutation_in _ Hp) in Hi.
      apply in_seq in Hi. lia.
Qed.


Lemma take_of_Forall2 {A : Type} (a : list A) (idx : list nat) (xs : list A) :
  Forall2 (fun i x => nth_error a i = Some x) idx xs -> take a idx = Ok xs.
Proof.
  induction 1 as [|i x idx' xs' Hi _ IH]; simpl; [reflexivity|].
  unfold getitem. rewrite Hi, IH. reflexivity.
Qed.

(** Indexing with a permutation of the first [m] positions rearranges the
    first [m] elements. *)
Lemma take_prefix_permutation {A : Type} (a : list A) (m : nat) (p : list nat) (xs : list A) :
  Permutation (seq 0 m) p -> take a p = Ok xs -> Permutation (firstn m a) xs.
Proof.
  intros Hp Ht. pose proof (take_Ok _ _ Ht) as H2.
  assert (Hin : forall i, In i p -> i < m).
  { intros i Hi. apply Permutation_sym in Hp.
    apply (Permutation_in _ Hp), in_seq in Hi. lia. }
  assert (Hm : m <= length a).
  { destruct m as [|m']; [lia|].
    assert (Hlast : In m' p) by (apply (Permutation_in _ Hp), in_seq; lia).
    clear -H2 Hlast. induction H2 as [|i x idx' xs' Hi _ IH]; [contradiction|].
    destruct Hlast as [->|Hl]; [|exact (IH Hl)].
    assert (m' < length a) by (apply nth_error_Some; congruence). lia. }
  apply take_permutation with (p := p).
  - rewrite length_firstn, Nat.min_l by exact Hm. exact Hp.
  - apply take_of_Forall2. clear -H2 Hin.
    induction H2 as [|i x idx' xs' Hi _ IH]; constructor.
    + rewrite nth_error_firstn.
      destruct (Nat.ltb_spec i m) as [_|Hge]; [exact Hi|].
      specialize (Hin i (or_introl eq_refl)). lia.
    + apply IH. intros j Hj. apply Hin. right. exact Hj.
Qed.

Lemma Forall2_of_repeat {A B : Type} (R : A -> B -> Prop) (c : A) (l : list B) :
  Forall (R c) l -> Forall2 R (repeat c (length l)) l.
Proof. induction 1; simpl; constructor; assumption. Qed.

Lemma Forall2_nth_error_r {A B : Type} (R : A -> B -> Prop) (d : A)
      (l1 : list A) (l2 : list B) :
  Forall2 R l1 l2 ->
  forall i y, nth_error l2 i = Some y -> R (nth i l1 d) y.
Proof.
  induction 1 as [|x y l1' l2' Hxy _ IH]; intros i z Hi.
  - destruct i; discriminate.
  - destruct i as [|i]; simpl in *; [inversion Hi; subst; exact Hxy|].
    apply IH. exact Hi.
Qed.

Lemma Forall2_map_left {A B C : Type} (R : B -> C -> Prop) (f : A -> B)
      (l1 : list A) (l2 : list C) :
  Forall2 (fun a c => R (f a) c) l1 l2 -> Forall2 R (map f l1) l2.
Proof. induction 1; simpl; constructor; assumption. Qed.

Lemma Forall2_map_right {A B C : Type} (R : A -> C -> Prop) (f : B -> C)
      (l1 : list A) (l2 : list B) :
  Forall2 (fun a b => R a (f b)) l1 l2 -> Forall2 R l1 (map f l2).
Proof. induction 1; simpl; constructor; assumption. Qed.

Lemma slice_map {A B : Type} (f : A -> B) (a b : nat) (row : list A) :
  slice a b (map f row) = map f (slice a b row).
Proof. unfold slice. rewrite skipn_map, firstn_map. reflexivity. Qed.

(** Two lists read through the same index list correspond position by
    position. *)
Lemma Forall2_same_indices {I A B : Type} (P : I -> A -> Prop) (Q : I -> B -> Prop)
      (idx : list I) (xs : list A) (ys : list B) :
  Forall2 P idx xs -> Forall2 Q idx ys ->
  Forall2 (fun x y => exists i, P i x /\ Q i y) xs ys.
Proof.
  intros H. revert ys. induction H as [|i x idx' xs' Hix _ IH]; intros ys Hq.
  - inversion Hq. constructor.
  - inversion Hq as [|? y ? ys' Hiy Hrest]; subst. constructor; [eauto|].
    apply IH. exact Hrest.
Qed.

Lemma count_occ_repeat_if {A : Type} (dec : forall a b : A, {a = b} + {a <> b})
      (x y : A) (n : nat) :
  count_occ dec (repeat y n) x = if dec y x then n else 0.
Proof.
  destruct (dec y x) as [Heq|Hne].
  - apply count_occ_repeat_eq. auto.
  - apply count_occ_repeat_neq. auto.
Qed.

Lemma filter_eqb_repeat (label : list Z) (c : Z) :
  filter (fun l => Z.eqb l c) label = repeat c (count_occ Z.eq_dec label c).
Proof.
  induction label as [|l rest IH]; [reflexivity|]. cbn [filter count_occ].
  destruct (Z.eqb_spec l c) as [->|Hne].
  - destruct (Z.eq_dec c c); [|contradiction]. simpl. f_equal. exact IH.
  - destruct (Z.eq_dec l c); [contradiction|exact IH].
Qed.

Module Augment.

Section Interaug.

(** The random generator: a state and the function that yields the next
    raw draw. *)
Variable G : Type.
Variable next_raw : G -> nat * G.

(** The element type of the arrays and the value [np.zeros] fills with. *)
Variable sample : Type.
Variable zero : sample.

(** *** The monad: generator state plus exceptions *)

Definition M (A : Type) : Type := G -> result (A * G).

Definition ret {A : Type} (a : A) : M A := fun g => Ok (a, g).

Definition bind {A B : Type} (m : M A) (k : A -> M B) : M B :=
  fun g =>
    match m g with
    | Ok (a, g') => k a g'
    | Raise e => Raise e
    end.

Definition raise {A : Type} (e : error) : M A := fun _ => Raise e.

Definition lift {A : Type} (r : result A) : M A :=
  fun g =>
    match r with
    | Ok a => Ok (a, g)
    | Raise e => Raise e
    end.

Notation "x <- m ;; k" := (bind m (fun x => k))
  (at level 61, m at next level, right associativity).

(** [for x in xs: s = body x s]. *)
Fixpoint for_ {S : Type} (xs : list nat) (body : nat -> S -> M S) (s : S) : M S :=
  match xs with
  | [] => ret s
  | x :: rest => s' <- body x s ;; for_ rest body s'
  end.

Definition range (n : nat) : list nat := seq 0 n.

(** *** numpy.random *)

Definition raw : M nat := fun g => let (r, g') := next_raw g in Ok (r, g').

Fixpoint draw (size bound : nat) : M (list nat) :=
  match size with
  | 0 => ret []
  | S k =>
      r <- raw ;;
      rs <- draw k bound ;;
      ret (r mod bound :: rs)
  end.

(** [np.random.randint(low, high, size)]: [size] integers in
    [[low, high)]; [ValueError] when the interval is empty. *)
Definition randint (low high size : nat) : M (list nat) :=
  if high <=? low then raise ValueError
  else
    rs <- draw size (high - low) ;;
    ret (map (Nat.add low) rs).

(** Draws the elements of [pool] one by one without replacement. *)
Fixpoint shuffle (n : nat) (pool : list nat) : M (list nat) :=
  match n with
  | 0 => ret []
  | S k =>
      r <- raw ;;
      let i := r mod length pool in
      rest <- shuffle k (firstn i pool ++ skipn (S i) pool) ;;
      ret (nth i pool 0 :: rest)
  end.

(** [np.random.permutation(n)]: a shuffled [arange(n)]. *)
Definition permutation (n : nat) : M (list nat) := shuffle n (range n).

(** *** Windows *)

Definition window : Type := list (list sample).

Definition zeros_window : window := repeat (repeat zero 1125) 22.

(** The shape (1, 22, 1125) of one window. *)
Definition shape_ok (w : window) : bool :=
  (length w =? 22) && forallb (fun row => length row =? 1125) w.

(** [w[:, :, rj * 125:(rj + 1) * 125]]. *)
Definition window_seg (rj : nat) (w : window) : window :=
  map (slice (rj * 125) ((rj + 1) * 125)) w.

(** [dst[:, :, rj * 125:(rj + 1) * 125] = src[:, :, rj * 125:(rj + 1) * 125]].
    NumPy refuses ([ValueError]) a source slice that does not have the
    shape of the target slice; broadcasting of singleton axes does not
    arise for windows of shape (1, 22, 1125) and is not modelled. *)
Definition assign_segment (rj : nat) (dst src : window) : result window :=
  if shape_ok src then
    Ok (map (fun ds : list sample * list sample =>
               set_slice (rj * 125) ((rj + 1) * 125) (fst ds)
                         (slice (rj * 125) ((rj + 1) * 125) (snd ds)))
            (combine dst src))
  else Raise ValueError.

(** *** [interaug] *)

(** The body of [for rj in range(8)] for synthetic window [ri]. *)
Definition splice_step (tmp_data : list window) (ri rj : nat)
           (tmp_aug_data : list window) : M (list window) :=
  rand_idx <- randint 0 (length tmp_data) 8 ;;
  k <- lift (getitem rand_idx rj) ;;
  src <- lift (getitem tmp_data k) ;;
  dst <- lift (getitem tmp_aug_data ri) ;;
  new <- lift (assign_segment rj dst src) ;;
  ret (setitem tmp_aug_data ri new).

(** The body of [for cls4aug in range(4)].  [batch_size] is a count, so
    [int(batch_size / 4)] is the quotient [batch_size / 4]; [acc] is the pair
    of the lists [aug_data] and [aug_label], each extended by [append]. *)
Definition class_step (timg : list window) (label : list Z) (batch_size : nat)
           (cls4aug : nat) (acc : list (list window) * list (list Z))
  : M (list (list window) * list (list Z)) :=
  let cls_idx := where_eq label (Z.of_nat cls4aug) in
  tmp_data <- lift (take timg cls_idx) ;;
  tmp_label <- lift (take label cls_idx) ;;
  let tmp_aug_data := repeat zeros_window (batch_size / 4) in
  tmp_aug_data <-
    for_ (range (batch_size / 4))
         (fun ri => for_ (range 8) (splice_step tmp_data ri))
         tmp_aug_data ;;
  ret (fst acc ++ [tmp_aug_data], snd acc ++ [tmp_label]).

(** [interaug(timg, label, batch_size)]: [np.concatenate] of the per-class
    blocks, then one index array [aug_shuffle] applied to both arrays.  The
    conversion of the two arrays to tensors, which ends the function, is in
    [interaug_tensors] below. *)
Definition interaug (timg : list window) (label : list Z) (batch_size : nat)
  : M (list window * list Z) :=
  acc <- for_ (range 4) (class_step timg label batch_size) ([], []) ;;
  let aug_data := concat (fst acc) in
  let aug_label := concat (snd acc) in
  aug_shuffle <- permutation (length aug_data) ;;
  aug_data <- lift (take aug_data aug_shuffle) ;;
  aug_label <- lift (take aug_label aug_shuffle) ;;
  ret (aug_data, aug_label).

(** *** Reasoning rules for the monad

    [post m Q]: every value the computation returns satisfies [Q].
    [total m Q]: the computation returns, from every generator state, a
    value that satisfies [Q].  [fails m]: it raises from every state. *)

Definition post {A : Type} (m : M A) (Q : A -> Prop) : Prop :=
  forall g a g', m g = Ok (a, g') -> Q a.

Definition total {A : Type} (m : M A) (Q : A -> Prop) : Prop :=
  forall g, exists a g', m g = Ok (a, g') /\ Q a.

Definition fails {A : Type} (m : M A) : Prop :=
  forall g, exists e, m g = Raise e.

Lemma post_ret {A : Type} (a : A) (Q : A -> Prop) : Q a -> post (ret a) Q.
Proof. intros H g b g' E. inversion E; subst. exact H. Qed.

Lemma post_bind {A B : Type} (m : M A) (k : A -> M B)
      (P : A -> Prop) (Q : B -> Prop) :
  post m P -> (forall a, P a -> post (k a) Q) -> post (bind m k) Q.
Proof.
  intros Hm Hk g b g' E. unfold bind in E.
  destruct (m g) as [[a g1]|e] eqn:Em; [|discriminate].
  exact (Hk a (Hm _ _ _ Em) _ _ _ E).
Qed.

Lemma post_weaken {A : Type} (m : M A) (P Q : A -> Prop) :
  post m P -> (forall a, P a -> Q a) -> post m Q.
Proof. intros Hm HPQ g a g' E. apply HPQ. exact (Hm _ _ _ E). Qed.

Lemma post_lift {A : Type} (r : result A) (Q : A -> Prop) :
  (forall a, r = Ok a -> Q a) -> post (lift r) Q.
Proof.
  intros H g a g' E. unfold lift in E. destruct r; inversion E; subst.
  apply H. reflexivity.
Qed.

(** Loop rule with an invariant indexed by the iteration counter. *)
Lemma post_for_seq {S : Type} (body : nat -> S -> M S) (I : nat -> S -> Prop) (n : nat) :
  forall a s,
    I a s ->
    (forall i t, a <= i < a + n -> I i t -> post (body i t) (I (Datatypes.S i))) ->
    post (for_ (seq a n) body s) (I (a + n)).
Proof.
  induction n as [|n IH]; intros a s Hs Hb; simpl.
  - rewrite Nat.add_0_r. apply post_ret. exact Hs.
  - apply post_bind with (P := I (Datatypes.S a)).
    + apply Hb; [lia|exact Hs].
    + intros s' Hs'. replace (a + Datatypes.S n) with (Datatypes.S a + n) by lia.
      apply IH; [exact Hs'|]. intros i t Hi. apply Hb. lia.
Qed.

Lemma total_ret {A : Type} (a : A) (Q : A -> Prop) : Q a -> total (ret a) Q.
Proof. intros H g. exists a, g. split; [reflexivity|exact H]. Qed.

Lemma total_bind {A B : Type} (m : M A) (k : A -> M B)
      (P : A -> Prop) (Q : B -> Prop) :
  total m P -> (forall a, P a -> total (k a) Q) -> total (bind m k) Q.
Proof.
  intros Hm Hk g. destruct (Hm g) as [a [g1 [Em Pa]]].
  destruct (Hk a Pa g1) as [b [g2 [Ek Qb]]].
  exists b, g2. unfold bind. rewrite Em. split; [exact Ek|exact Qb].
Qed.

Lemma total_lift {A : Type} (r : result A) (a : A) (Q : A -> Prop) :
  r = Ok a -> Q a -> total (lift r) Q.
Proof. intros -> H g. exists a, g. split; [reflexivity|exact H]. Qed.

Lemma total_weaken {A : Type} (m : M A) (P Q : A -> Prop) :
  total m P -> (forall a, P a -> Q a) -> total m Q.
Proof.
  intros Hm HPQ g. destruct (Hm g) as [a [g' [E Pa]]].
  exists a, g'. split; [exact E|apply HPQ; exact Pa].
Qed.

Lemma total_for_seq {S : Type} (body : nat -> S -> M S) (I : nat -> S -> Prop) (n : nat) :
  forall a s,
    I a s ->
    (forall i t, a <= i < a + n -> I i t -> total (body i t) (I (Datatypes.S i))) ->
    total (for_ (seq a n) body s) (I (a + n)).
Proof.
  induction n as [|n IH]; intros a s Hs Hb; simpl.
  - rewrite Nat.add_0_r. apply total_ret. exact Hs.
  - apply total_bind with (P := I (Datatypes.S a)).
    + apply Hb; [lia|exact Hs].
    + intros s' Hs'. replace (a + Datatypes.S n) with (Datatypes.S a + n) by lia.
      apply IH; [exact Hs'|]. intros i t Hi. apply Hb. lia.
Qed.

Lemma fails_raise {A : Type} (e : error) : fails (@raise A e).
Proof. intros g. exists e. reflexivity. Qed.

Lemma fails_bind_now {A B : Type} (m : M A) (k : A -> M B) :
  fails m -> fails (bind m k).
Proof. intros H g. destruct (H g) as [e E]. exists e. unfold bind. rewrite E. reflexivity. Qed.

Lemma fails_bind_later {A B : Type} (m : M A) (k : A -> M B) :
  (forall a, fails (k a)) -> fails (bind m k).
Proof.
  intros H g. unfold bind. destruct (m g) as [[a g1]|e]; [apply H|eauto].
Qed.

Lemma fails_bind_post {A B : Type} (m : M A) (k : A -> M B) (P : A -> Prop) :
  post m P -> (forall a, P a -> fails (k a)) -> fails (bind m k).
Proof.
  intros Hm H g. unfold bind. destruct (m g) as [[a g1]|e] eqn:E; [|eauto].
  apply H. exact (Hm _ _ _ E).
Qed.

(** A loop raises as soon as one of its iterations raises from every state. *)
Lemma fails_for {S : Type} (body : nat -> S -> M S) (xs : list nat) (x : nat) :
  In x xs -> (forall s, fails (body x s)) -> forall s, fails (for_ xs body s).
Proof.
  induction xs as [|y rest IH]; intros Hin Hx s; [contradiction|]. simpl.
  destruct Hin as [->|Hin].
  - apply fails_bind_now. apply Hx.
  - apply fails_bind_later. intros s'. apply IH; assumption.
Qed.

(** *** The random draws *)

Lemma total_raw : total raw (fun _ => True).
Proof.
  intros g. unfold raw. destruct (next_raw g) as [r g'].
  exists r, g'. split; [reflexivity|exact I].
Qed.

Lemma total_draw (size bound : nat) :
  0 < bound ->
  total (draw size bound)
        (fun rs => length rs = size /\ Forall (fun r => r < bound) rs).
Proof.
  intros Hb. induction size as [|k IH]; simpl.
  - apply total_ret. split; [reflexivity|constructor].
  - apply total_bind with (P := fun _ => True); [apply total_raw|].
    intros r _. eapply total_bind; [exact IH|].
    intros rs [Hl Hf]. apply total_ret. split; [simpl; lia|].
    constructor; [apply Nat.mod_upper_bound; lia|exact Hf].
Qed.

(** Contract of [randint] on a non-empty interval. *)
Lemma total_randint (low high size : nat) :
  low < high ->
  total (randint low high size)
        (fun rs => length rs = size /\ Forall (fun r => low <= r < high) rs).
Proof.
  intros H. unfold randint.
  destruct (Nat.leb_spec high low) as [Hle|_]; [lia|].
  eapply total_bind; [apply total_draw; lia|].
  intros rs [Hl Hf]. apply total_ret. split; [rewrite length_map; exact Hl|].
  apply Forall_map. eapply Forall_impl; [|exact Hf]. simpl. intros r Hr. lia.
Qed.

(** [randint] on an empty interval raises. *)
Lemma fails_randint (low high size : nat) :
  high <= low -> fails (randint low high size).
Proof.
  intros H. unfold randint.
  destruct (Nat.leb_spec high low) as [_|Hlt]; [apply fails_raise|lia].
Qed.

Lemma total_shuffle (n : nat) :
  forall pool, length pool = n ->
               total (shuffle n pool) (fun p => Permutation pool p).
Proof.
  induction n as [|k IH]; intros pool Hlen; cbn [shuffle].
  - destruct pool; [|discriminate]. apply total_ret. constructor.
  - apply total_bind with (P := fun _ => True); [apply total_raw|].
    intros r _.
    assert (Hi : r mod length pool < length pool)
      by (apply Nat.mod_upper_bound; lia).
    set (i := r mod length pool) in *.
    assert (Hsplit : pool = firstn i pool ++ nth i pool 0 :: skipn (Datatypes.S i) pool).
    { rewrite <- (firstn_skipn i pool) at 1. f_equal.
      clearbody i. clear -Hi. revert i Hi.
      induction pool as [|h t IHp]; intros [|i] Hi; simpl in *; try lia.
      - reflexivity.
      - apply IHp. lia. }
    eapply total_bind.
    + apply IH. rewrite length_app, length_firstn, length_skipn. lia.
    + intros rest Hperm. apply total_ret.
      rewrite Hsplit at 1. symmetry. apply Permutation_cons_app.
      symmetry. exact Hperm.
Qed.

(** Contract of [permutation]: a rearrangement of [0 .. n-1]. *)
Lemma total_permutation (n : nat) :
  total (permutation n) (fun p => Permutation (seq 0 n) p).
Proof. apply total_shuffle. apply length_seq. Qed.

(** *** Windows and segment assignment *)

Definition well_shaped (w : window) : Prop :=
  length w = 22 /\ Forall (fun row => length row = 1125) w.

Lemma shape_ok_spec (w : window) : shape_ok w = true <-> well_shaped w.
Proof.
  unfold shape_ok, well_shaped.
  rewrite andb_true_iff, Nat.eqb_eq, forallb_forall, Forall_forall.
  split; intros [H1 H2]; (split; [exact H1|]); intros row Hrow;
    apply Nat.eqb_eq; apply H2; exact Hrow.
Qed.

Lemma zeros_window_shape : well_shaped zeros_window.
Proof.
  split; [apply repeat_length|].
  apply Forall_forall. intros row Hrow.
  apply repeat_spec in Hrow. subst. apply repeat_length.
Qed.

(** Row by row, the assignment of segment [rj] copies the source segment
    and leaves the earlier segments of the target untouched. *)
Lemma assign_rows (rj : nat) :
  rj < 8 ->
  forall dst src : window,
    length dst = length src ->
    Forall (fun row => length row = 1125) dst ->
    Forall (fun row => length row = 1125) src ->
    let new :=
      map (fun ds : list sample * list sample =>
             set_slice (rj * 125) ((rj + 1) * 125) (fst ds)
                       (slice (rj * 125) ((rj + 1) * 125) (snd ds)))
          (combine dst src) in
    length new = length dst /\
    Forall (fun row => length row = 1125) new /\
    window_seg rj new = window_seg rj src /\
    (forall j, j < rj -> window_seg j new = window_seg j dst).
Proof.
  intros Hrj. induction dst as [|d dst IH]; intros [|s src] Hlen Hd Hs;
    simpl in *; try discriminate.
  - repeat split; auto.
  - inversion Hd as [|? ? Hd1 Hd2]; subst. inversion Hs as [|? ? Hs1 Hs2]; subst.
    destruct (IH src) as [IH1 [IH2 [IH3 IH4]]]; [lia|assumption|assumption|].
    assert (Hv : length (slice (rj * 125) ((rj + 1) * 125) s)
                 = (rj + 1) * 125 - rj * 125)
      by (apply slice_length; lia).
    repeat split.
    + simpl. f_equal. exact IH1.
    + constructor; [|exact IH2].
      rewrite set_slice_length; [exact Hd1|lia|lia|exact Hv].
    + unfold window_seg in *. simpl. f_equal; [|exact IH3].
      apply slice_set_slice_same; [lia|exact Hv].
    + intros j Hj. unfold window_seg in *. simpl. f_equal.
      * apply slice_set_slice_before; [|lia].
        apply Nat.mul_le_mono_r. lia.
      * apply IH4. exact Hj.
Qed.

Lemma assign_segment_Ok (rj : nat) (dst src new : window) :
  rj < 8 -> well_shaped dst -> assign_segment rj dst src = Ok new ->
  well_shaped src /\ well_shaped new /\
  window_seg rj new = window_seg rj src /\
  (forall j, j < rj -> window_seg j new = window_seg j dst).
Proof.
  intros Hrj [Hd1 Hd2] H. unfold assign_segment in H.
  destruct (shape_ok src) eqn:Es; [|discriminate].
  apply shape_ok_spec in Es. destruct Es as [Hs1 Hs2].
  inversion H as [Hnew]; clear H.
  destruct (@assign_rows rj Hrj dst src) as [N1 [N2 [N3 N4]]];
    [congruence|exact Hd2|exact Hs2|].
  split; [split; assumption|]. split; [split; [congruence|exact N2]|].
  split; [exact N3|exact N4].
Qed.

Lemma assign_segment_defined (rj : nat) (dst src : window) :
  well_shaped src -> exists new, assign_segment rj dst src = Ok new.
Proof.
  intros Hs. apply shape_ok_spec in Hs. unfold assign_segment. rewrite Hs. eauto.
Qed.

(** *** Provenance of the synthetic windows *)

(** Segment [j] of [w] is segment [j] of one of the windows of [pool]. *)
Definition segment_from (pool : list window) (j : nat) (w : window) : Prop :=
  exists src, In src pool /\ window_seg j w = window_seg j src.

(** [w] has the window shape and its first [b] segments come from [pool]. *)
Definition spliced (pool : list window) (b : nat) (w : window) : Prop :=
  well_shaped w /\ forall j, j < b -> segment_from pool j w.

(** State of the two nested loops when the outer counter is [a] and the
    inner counter is [b]: rows before [a] are complete, row [a] has its
    first [b] segments, later rows are still zero buffers. *)
Definition splice_inv (pool : list window) (a b : nat) (buf : list window) : Prop :=
  forall i w, nth_error buf i = Some w ->
              spliced pool (if i <? a then 8 else if i =? a then b else 0) w.

Lemma post_true {A : Type} (m : M A) : post m (fun _ => True).
Proof. intros g a g' _. exact I. Qed.

(** One step of a postcondition proof through [x <- lift r ;; k]: keep the
    equation [r = Ok x]. *)
Ltac post_lift_step :=
  eapply post_bind;
  [apply post_lift; let a := fresh "a" in let H := fresh "H" in intros a H; exact H|].

(** One step through a draw whose value plays no part. *)
Ltac post_skip_step := eapply post_bind; [apply post_true|].

(** One step of a termination proof through [x <- lift r ;; k] when
    [H : r = Ok v]: continue with [v]. *)
Ltac total_lift_step H v :=
  eapply total_bind;
  [eapply total_lift with (Q := fun x => x = v); [exact H|reflexivity]|];
  let x := fresh "x" in intros x ->.

Lemma post_splice_step (pool : list window) (ri rj : nat) (buf : list window) :
  rj < 8 -> splice_inv pool ri rj buf ->
  post (splice_step pool ri rj buf)
       (fun buf' => length buf' = length buf /\ splice_inv pool ri (S rj) buf').
Proof.
  intros Hrj Hinv. unfold splice_step.
  post_skip_step. intros rand_idx _.
  post_skip_step. intros k _.
  post_lift_step. intros src Hsrc.
  post_lift_step. intros dst Hdst.
  post_lift_step. intros new Hnew.
  apply post_ret. split; [apply setitem_length|].
  apply getitem_Ok in Hsrc, Hdst.
  pose proof (Hinv _ _ Hdst) as Hd.
  rewrite Nat.ltb_irrefl, Nat.eqb_refl in Hd. destruct Hd as [Hd1 Hd2].
  destruct (@assign_segment_Ok rj dst src new Hrj Hd1 Hnew)
    as [_ [N1 [N2 N3]]].
  intros i w Hw. apply setitem_nth_error in Hw.
  destruct Hw as [[-> ->]|[Hne Hw]].
  - rewrite Nat.ltb_irrefl, Nat.eqb_refl. split; [exact N1|].
    intros j Hj. destruct (Nat.eq_dec j rj) as [->|Hjr].
    + exists src. split; [eapply nth_error_In; exact Hsrc|exact N2].
    + destruct (Hd2 j) as [s [Hs1 Hs2]]; [lia|].
      exists s. split; [exact Hs1|]. rewrite N3 by lia. exact Hs2.
  - specialize (Hinv _ _ Hw).
    destruct (i <? ri); [exact Hinv|].
    destruct (Nat.eqb_spec i ri) as [->|_]; [congruence|exact Hinv].
Qed.

(** After both loops every synthetic window is made of eight segments of
    windows of [pool]. *)
Lemma post_splice_loops (pool : list window) (n : nat) :
  post (for_ (range n) (fun ri => for_ (range 8) (splice_step pool ri))
             (repeat zeros_window n))
       (fun buf => length buf = n /\ Forall (spliced pool 8) buf).
Proof.
  pose (I := fun a buf => length buf = n /\ splice_inv pool a 0 buf).
  assert (H : post (for_ (range n) (fun ri => for_ (range 8) (splice_step pool ri))
                         (repeat zeros_window n)) (I (0 + n))).
  { apply post_for_seq.
    - split; [apply repeat_length|].
      intros i w Hw. apply nth_error_In, repeat_spec in Hw. subst.
      destruct (i <? 0) eqn:E; [apply Nat.ltb_lt in E; lia|].
      destruct (i =? 0); (split; [apply zeros_window_shape|intros j Hj; lia]).
    - intros a buf _ [Hlen Hinv].
      pose (J := fun b t => length t = n /\ splice_inv pool a b t).
      assert (HJ : post (for_ (range 8) (splice_step pool a) buf) (J (0 + 8))).
      { apply post_for_seq.
        - split; assumption.
        - intros b t Hb [Ht1 Ht2] g t' g' E.
          destruct (@post_splice_step pool a b t ltac:(lia) Ht2 g t' g' E) as [L1 L2].
          split; [congruence|exact L2]. }
      intros g t g' E. destruct (HJ g t g' E) as [Ht1 Ht2].
      split; [exact Ht1|].
      intros i w Hw. specialize (Ht2 i w Hw). simpl in Ht2.
      destruct (Nat.ltb_spec i (S a)), (Nat.ltb_spec i a), (Nat.eqb_spec i a),
        (Nat.eqb_spec i (S a)); try lia; exact Ht2. }
  intros g buf g' E. destruct (H g buf g' E) as [Hlen Hinv].
  split; [exact Hlen|].
  apply Forall_forall. intros w Hw. apply In_nth_error in Hw.
  destruct Hw as [i Hi]. specialize (Hinv i w Hi).
  assert (Hlt : i < 0 + n) by (rewrite <- Hlen; apply nth_error_Some; congruence).
  destruct (Nat.ltb_spec i (0 + n)); [exact Hinv|lia].
Qed.

Lemma total_is_post {A : Type} (m : M A) (Q : A -> Prop) :
  total m Q -> post m Q.
Proof.
  intros H g a g' E. destruct (H g) as [b [g1 [E1 Qb]]].
  rewrite E in E1. inversion E1; subst. exact Qb.
Qed.

Lemma total_and_post {A : Type} (m : M A) (P Q : A -> Prop) :
  total m P -> post m Q -> total m (fun a => P a /\ Q a).
Proof.
  intros Ht Hp g. destruct (Ht g) as [a [g' [E Pa]]].
  exists a, g'. split; [exact E|]. split; [exact Pa|exact (Hp _ _ _ E)].
Qed.

(** *** One class *)

(** [w] has the window shape and each of its eight segments is the same
    segment of an input window whose label is [c]. *)
Definition built_from (timg : list window) (label : list Z) (c : Z) (w : window) : Prop :=
  well_shaped w /\
  forall j, j < 8 ->
    exists k src, nth_error label k = Some c /\ nth_error timg k = Some src /\
                  window_seg j w = window_seg j src.

Definition class_labels (label : list Z) (c : nat) : list Z :=
  filter (fun l => Z.eqb l (Z.of_nat c)) label.

Lemma post_class_step (timg : list window) (label : list Z) (batch_size c : nat)
      (acc : list (list window) * list (list Z)) :
  post (class_step timg label batch_size c acc)
       (fun acc' => exists blk,
            fst acc' = fst acc ++ [blk] /\
            snd acc' = snd acc ++ [class_labels label c] /\
            length blk = batch_size / 4 /\
            Forall (built_from timg label (Z.of_nat c)) blk).
Proof.
  unfold class_step.
  post_lift_step. intros tmp_data Hd.
  post_lift_step. intros tmp_label Hl.
  eapply post_bind; [apply post_splice_loops|]. intros blk [Hlen Hblk].
  apply post_ret. exists blk. simpl.
  rewrite take_where_label in Hl. inversion Hl; subst tmp_label.
  repeat split; [exact Hlen|].
  eapply Forall_impl; [|exact Hblk]. intros w [Hw1 Hw2]. split; [exact Hw1|].
  intros j Hj. destruct (Hw2 j Hj) as [src [Hin Hseg]].
  destruct (take_In _ _ _ Hd Hin) as [k [Hk Hn]].
  apply where_eq_spec in Hk. exists k, src. repeat split; assumption.
Qed.

(** *** The whole routine *)

(** [np.concatenate(aug_label)]: the input labels grouped by class. *)
Definition grouped_labels (label : list Z) : list Z :=
  concat (map (class_labels label) (range 4)).

Definition outer_inv (timg : list window) (label : list Z) (n4 a : nat)
           (acc : list (list window) * list (list Z)) : Prop :=
  length (concat (fst acc)) = a * n4 /\
  Forall (fun w => exists c, c < a /\ built_from timg label (Z.of_nat c) w)
         (concat (fst acc)) /\
  snd acc = map (class_labels label) (range a).

Lemma post_outer (timg : list window) (label : list Z) (batch_size : nat) :
  post (for_ (range 4) (class_step timg label batch_size) ([], []))
       (outer_inv timg label (batch_size / 4) 4).
Proof.
  change 4 with (0 + 4) at 3. apply post_for_seq.
  - repeat split; constructor.
  - intros c acc _ [I1 [I2 I3]].
    eapply post_weaken; [apply post_class_step|].
    intros acc' [blk [E1 [E2 [Hlen Hblk]]]].
    unfold outer_inv. rewrite E1, E2, concat_app, length_app.
    cbn [concat]. rewrite app_nil_r. repeat split.
    + rewrite I1, Hlen. lia.
    + apply Forall_app. split.
      * eapply Forall_impl; [|exact I2]. intros w [k [Hk Hw]]. exists k. split; [lia|exact Hw].
      * eapply Forall_impl; [|exact Hblk]. intros w Hw. exists c. split; [lia|exact Hw].
    + rewrite I3. unfold range. rewrite seq_S, map_app. reflexivity.
Qed.

(** What every returned pair looks like: the windows are synthetic windows
    of one class each, and the labels are the class-grouped input labels
    read through the permutation that also reorders the windows. *)
Lemma post_interaug (timg : list window) (label : list Z) (batch_size : nat) :
  post (interaug timg label batch_size)
       (fun out =>
          length (fst out) = 4 * (batch_size / 4) /\
          Forall (fun w => exists c, c < 4 /\ built_from timg label (Z.of_nat c) w)
                 (fst out) /\
          exists p, Permutation (seq 0 (4 * (batch_size / 4))) p /\
                    take (grouped_labels label) p = Ok (snd out)).
Proof.
  unfold interaug.
  eapply post_bind; [apply post_outer|]. intros acc [I1 [I2 I3]].
  eapply post_bind; [apply total_is_post, total_permutation|]. intros p Hp.
  post_lift_step. intros ws Hws.
  post_lift_step. intros ls Hls.
  apply post_ret. cbn [fst snd].
  assert (Hn : length (concat (fst acc)) = 4 * (batch_size / 4)) by exact I1.
  rewrite Hn in Hp.
  split; [|split].
  - rewrite (take_length _ _ Hws). rewrite <- (Permutation_length Hp), length_seq. reflexivity.
  - apply Forall_forall. intros w Hw.
    destruct (take_In _ _ _ Hws Hw) as [i [_ Hi]].
    apply nth_error_In in Hi. rewrite Forall_forall in I2. apply I2. exact Hi.
  - exists p. split; [exact Hp|]. unfold grouped_labels. rewrite <- I3. exact Hls.
Qed.

(** *** Successful runs *)

Lemma total_splice_step (pool : list window) (ri rj : nat) (buf : list window) :
  0 < length pool -> Forall well_shaped pool -> rj < 8 ->
  ri < length buf -> Forall well_shaped buf ->
  total (splice_step pool ri rj buf)
        (fun buf' => length buf' = length buf /\ Forall well_shaped buf').
Proof.
  intros Hpool Hshape Hrj Hri Hbuf. unfold splice_step.
  eapply total_bind; [apply total_randint; exact Hpool|]. intros rand_idx [Hl Hr].
  destruct (@getitem_lt _ rand_idx rj ltac:(lia)) as [k Hk].
  assert (Hkp : k < length pool).
  { apply getitem_Ok, nth_error_In in Hk.
    rewrite Forall_forall in Hr. apply Hr in Hk. lia. }
  total_lift_step Hk k.
  destruct (getitem_lt pool Hkp) as [src Hsrc].
  total_lift_step Hsrc src.
  destruct (getitem_lt buf Hri) as [dst Hdst].
  total_lift_step Hdst dst.
  assert (Hs : well_shaped src).
  { apply getitem_Ok, nth_error_In in Hsrc.
    rewrite Forall_forall in Hshape. apply Hshape. exact Hsrc. }
  assert (Hd : well_shaped dst).
  { apply getitem_Ok, nth_error_In in Hdst.
    rewrite Forall_forall in Hbuf. apply Hbuf. exact Hdst. }
  destruct (assign_segment_defined rj dst Hs) as [new Hnew].
  total_lift_step Hnew new. apply total_ret. split; [apply setitem_length|].
  destruct (@assign_segment_Ok rj dst src new Hrj Hd Hnew) as [_ [Hn _]].
  apply Forall_forall. intros w Hw. apply setitem_In in Hw.
  destruct Hw as [->|Hw]; [exact Hn|].
  rewrite Forall_forall in Hbuf. apply Hbuf. exact Hw.
Qed.

Lemma total_splice_loops (pool : list window) (n : nat) :
  (0 < n -> 0 < length pool /\ Forall well_shaped pool) ->
  total (for_ (range n) (fun ri => for_ (range 8) (splice_step pool ri))
              (repeat zeros_window n))
        (fun _ => True).
Proof.
  intros Hpre.
  pose (I := fun (_ : nat) (buf : list window) =>
               length buf = n /\ Forall well_shaped buf).
  apply total_weaken with (P := I (0 + n)); [|intros; exact Logic.I].
  apply total_for_seq.
  - split; [apply repeat_length|].
    apply Forall_forall. intros w Hw. apply repeat_spec in Hw. subst.
    apply zeros_window_shape.
  - intros ri buf Hri [Hlen Hbuf].
    destruct Hpre as [Hp1 Hp2]; [lia|].
    apply total_weaken with (P := I (0 + 8)); [|intros a Ha; exact Ha].
    apply total_for_seq; [split; assumption|].
    intros rj t Hrj [Ht1 Ht2].
    eapply total_weaken.
    + apply total_splice_step; [exact Hp1|exact Hp2|lia|lia|exact Ht2].
    + intros t' [L1 L2]. split; [congruence|exact L2].
Qed.

Lemma total_class_step (timg : list window) (label : list Z) (batch_size c : nat)
      (acc : list (list window) * list (list Z)) :
  length label <= length timg ->
  (0 < batch_size / 4 ->
   In (Z.of_nat c) label /\ Forall well_shaped timg) ->
  total (class_step timg label batch_size c acc) (fun _ => True).
Proof.
  intros Hlen Hpre. unfold class_step.
  assert (Hidx : Forall (fun i => i < length timg) (where_eq label (Z.of_nat c))).
  { eapply Forall_impl; [|apply where_eq_lt]. simpl. intros i Hi. lia. }
  destruct timg as [|w0 timg'] eqn:Et.
  - (* no window at all: then no label either *)
    destruct label; [|simpl in Hlen; lia]. simpl.
    eapply total_bind; [apply total_ret with (Q := fun x => x = []); reflexivity|].
    intros ? ->.
    eapply total_bind; [apply total_ret with (Q := fun x => x = []); reflexivity|].
    intros ? ->.
    eapply total_bind; [apply total_splice_loops|intros; apply total_ret; exact I].
    intros Hn. destruct (Hpre Hn) as [[] _].
  - rewrite <- Et in *. clear Et timg'.
    pose proof (@take_in_range _ w0 _ _ Hidx) as Htd.
    eapply total_bind;
      [eapply total_lift with (Q := fun x => take timg (where_eq label (Z.of_nat c)) = Ok x);
       [exact Htd|exact Htd]|].
    intros tmp_data Hd.
    eapply total_bind;
      [eapply total_lift with (Q := fun _ => True); [apply take_where_label|exact I]|].
    intros tmp_label _.
    eapply total_bind; [apply total_splice_loops|intros; apply total_ret; exact I].
    intros Hn. destruct (Hpre Hn) as [Hin Hsh]. split.
    + rewrite (take_length _ _ Hd), where_eq_length.
      apply In_nth_error in Hin. destruct Hin as [k Hk].
      apply where_eq_spec in Hk. rewrite <- where_eq_length.
      destruct (where_eq label (Z.of_nat c)); [contradiction|simpl; lia].
    + apply Forall_forall. intros w Hw.
      destruct (take_In _ _ _ Hd Hw) as [k [_ Hk]].
      apply nth_error_In in Hk. rewrite Forall_forall in Hsh. apply Hsh. exact Hk.
Qed.

(** With at least as many windows as labels, window shapes as documented,
    every class present and enough labels to index, the routine returns. *)
Lemma total_interaug (timg : list window) (label : list Z) (batch_size : nat) :
  length label <= length timg ->
  (0 < batch_size / 4 ->
   (forall c, c < 4 -> In (Z.of_nat c) label) /\ Forall well_shaped timg) ->
  4 * (batch_size / 4) <= length (grouped_labels label) ->
  total (interaug timg label batch_size) (fun _ => True).
Proof.
  intros Hlen Hpre Hlab. unfold interaug.
  apply total_bind with (P := outer_inv timg label (batch_size / 4) 4).
  - apply total_weaken
      with (P := fun acc => True /\ outer_inv timg label (batch_size / 4) 4 acc);
      [|intros a [_ Ha]; exact Ha].
    apply total_and_post; [|apply post_outer].
    pose (I := fun (a : nat) (_ : list (list window) * list (list Z)) => True).
    apply total_weaken with (P := I (0 + 4)); [|intros; exact Logic.I].
    apply total_for_seq; [exact Logic.I|].
    intros c acc Hc _. apply total_class_step; [exact Hlen|].
    intros Hn. destruct (Hpre Hn) as [H1 H2]. split; [apply H1; lia|exact H2].
  - intros acc [I1 [I2 I3]].
    eapply total_bind; [apply total_permutation|]. intros p Hp.
    assert (Hn : length (concat (fst acc)) = 4 * (batch_size / 4)) by exact I1.
    assert (Hrange : Forall (fun i => i < 4 * (batch_size / 4)) p).
    { apply Forall_forall. intros i Hi.
      apply Permutation_sym in Hp. apply (Permutation_in _ Hp) in Hi.
      apply in_seq in Hi. lia. }
    assert (exists ws, take (concat (fst acc)) p = Ok ws) as [ws Hws].
    { destruct (concat (fst acc)) as [|w0 rest] eqn:Ec.
      - cbn [length] in Hn.
        destruct p as [|i p']; [exists []; reflexivity|].
        inversion Hrange; subst. lia.
      - rewrite <- Ec in *. eexists. apply take_in_range with (d := w0).
        rewrite Hn. exact Hrange. }
    assert (exists ls, take (concat (snd acc)) p = Ok ls) as [ls Hls].
    { rewrite I3. fold (grouped_labels label).
      eexists. apply take_in_range with (d := 0%Z).
      eapply Forall_impl; [|exact Hrange]. cbv beta. intros i Hi. lia. }
    eapply total_bind; [eapply total_lift with (Q := fun _ => True); [exact Hws|exact I]|].
    intros ws' _.
    eapply total_bind; [eapply total_lift with (Q := fun _ => True); [exact Hls|exact I]|].
    intros ls' _. apply total_ret. exact I.
Qed.

(** *** Labels *)

Lemma grouped_labels_unfold (label : list Z) :
  grouped_labels label =
  class_labels label 0 ++ class_labels label 1 ++
  class_labels label 2 ++ class_labels label 3.
Proof. unfold grouped_labels. cbn [range seq map concat]. rewrite app_nil_r. reflexivity. Qed.

(** Grouping class labels by class rearranges them. *)
Lemma grouped_labels_permutation (label : list Z) :
  Forall (fun l => (0 <= l < 4)%Z) label ->
  Permutation label (grouped_labels label).
Proof.
  intros H. rewrite grouped_labels_unfold.
  induction H as [|l rest Hl _ IH]; [constructor|].
  assert (Hcases : l = 0%Z \/ l = 1%Z \/ l = 2%Z \/ l = 3%Z) by lia.
  unfold class_labels in *.
  destruct Hcases as [-> | [-> | [-> | ->]]]; cbn [filter Z.of_nat Z.eqb Pos.eqb Pos.of_succ_nat Pos.succ].
  - constructor. exact IH.
  - apply Permutation_cons_app. exact IH.
  - rewrite app_assoc. apply Permutation_cons_app. rewrite <- app_assoc. exact IH.
  - rewrite 2 app_assoc. apply Permutation_cons_app. rewrite <- 2 app_assoc. exact IH.
Qed.

Lemma where_eq_absent (label : list Z) (c : Z) :
  ~ In c label -> where_eq label c = [].
Proof.
  intros H. destruct (where_eq label c) as [|k ks] eqn:E; [reflexivity|].
  exfalso. apply H.
  assert (Hk : In k (where_eq label c)) by (rewrite E; left; reflexivity).
  apply where_eq_spec in Hk. eapply nth_error_In. exact Hk.
Qed.

(** With fewer than four requested windows no loop body runs. *)
Lemma class_step_no_rows (timg : list window) (label : list Z) (batch_size c : nat)
      (acc : list (list window) * list (list Z)) (g : G) :
  batch_size / 4 = 0 -> length label <= length timg ->
  class_step timg label batch_size c acc g
  = Ok ((fst acc ++ [[]], snd acc ++ [class_labels label c]), g).
Proof.
  intros Hn Hlen. unfold class_step. rewrite Hn, take_where_label.
  assert (Hidx : Forall (fun i => i < length timg) (where_eq label (Z.of_nat c))).
  { eapply Forall_impl; [|apply where_eq_lt]. cbv beta. intros i Hi. lia. }
  destruct timg as [|w0 timg'] eqn:Et.
  - destruct label; [|simpl in Hlen; lia]. reflexivity.
  - rewrite <- Et in *. rewrite (@take_in_range _ w0 _ _ Hidx). reflexivity.
Qed.

Lemma Forall_shape_ok (l : list window) :
  forallb shape_ok l = true -> Forall well_shaped l.
Proof.
  intros H. rewrite forallb_forall in H. apply Forall_forall.
  intros w Hw. apply shape_ok_spec. apply H. exact Hw.
Qed.

(** *** Properties of [interaug] *)

(** C9.  When the batch holds exactly [batch_size] labelled windows of
    shape (1, 22, 1125), [batch_size] is a multiple of 4, the labels are
    class labels 0..3 and each class occurs, [interaug] returns
    [batch_size] windows and a label array that is a permutation of the
    input labels: every class occurs in the output as often as in the
    input. *)
Theorem interaug_labels_permutation
        (timg : list window) (label : list Z) (batch_size : nat) (g : G) :
  length timg = length label ->
  length label = batch_size ->
  batch_size mod 4 = 0 ->
  Forall well_shaped timg ->
  Forall (fun l => (0 <= l < 4)%Z) label ->
  (forall c, c < 4 -> In (Z.of_nat c) label) ->
  exists ws ls g',
    interaug timg label batch_size g = Ok (ws, ls, g') /\
    length ws = batch_size /\
    Permutation label ls /\
    forall c, count_occ Z.eq_dec ls c = count_occ Z.eq_dec label c.
Proof.
  intros Ht Hl Hmod Hshape Hrange Hall.
  assert (Hbs : 4 * (batch_size / 4) = batch_size).
  { pose proof (Nat.div_mod_eq batch_size 4). lia. }
  pose proof (grouped_labels_permutation Hrange) as Hgp.
  assert (Hglen : length (grouped_labels label) = batch_size).
  { rewrite <- (Permutation_length Hgp). exact Hl. }
  assert (Htot : total (interaug timg label batch_size) (fun _ => True)).
  { apply total_interaug; [lia| |lia]. intros _. split; assumption. }
  destruct (Htot g) as [[ws ls] [g' [E _]]].
  exists ws, ls, g'. split; [exact E|].
  destruct (@post_interaug timg label batch_size g (ws, ls) g' E)
    as [Hlen [_ [p [Hp Htake]]]].
  cbn [fst snd] in *. rewrite Hbs in Hlen, Hp.
  assert (Hperm : Permutation label ls).
  { eapply Permutation_trans; [exact Hgp|].
    eapply take_permutation; [|exact Htake]. rewrite Hglen. exact Hp. }
  split; [exact Hlen|]. split; [exact Hperm|].
  intros c. symmetry. revert c. apply Permutation_count_occ. exact Hperm.
Qed.

(** C5, as the code behaves.  When one of the four classes has no example
    in the batch and at least four windows are requested, the call raises:
    the draw of a source index from the empty class subset is refused (or
    an earlier step has already raised).  No result is returned. *)
Theorem interaug_empty_class_raises
        (timg : list window) (label : list Z) (batch_size c : nat) (g : G) :
  c < 4 -> ~ In (Z.of_nat c) label -> 4 <= batch_size ->
  exists e, interaug timg label batch_size g = Raise e.
Proof.
  intros Hc Habs Hbs. revert g.
  change (fails (interaug timg label batch_size)).
  unfold interaug. apply fails_bind_now.
  apply fails_for with (x := c); [apply in_seq; lia|].
  intros acc. unfold class_step.
  rewrite where_eq_absent by exact Habs. cbn [take].
  apply fails_bind_post with (P := fun x => x = []);
    [apply post_lift; intros a Ha; inversion Ha; reflexivity|].
  intros ? ->. apply fails_bind_later. intros tmp_label.
  apply fails_bind_now.
  assert (Hn : 0 < batch_size / 4).
  { apply Nat.div_str_pos. lia. }
  apply fails_for with (x := 0); [apply in_seq; lia|].
  intros buf. apply fails_for with (x := 0); [apply in_seq; lia|].
  intros buf'. unfold splice_step. apply fails_bind_now.
  apply fails_randint. simpl. lia.
Qed.

(** C6, as the code behaves.  With [batch_size = 3] and a window for every
    label, the call raises nothing: [int(3 / 4)] is 0, no synthetic window
    is built, and the call returns an empty window array and an empty
    label array. *)
Theorem interaug_batch_size_3_returns_empty
        (timg : list window) (label : list Z) (g : G) :
  length label <= length timg ->
  interaug timg label 3 g = Ok ([], [], g).
Proof.
  intros Hlen. unfold interaug, bind at 1. cbn [range seq for_].
  unfold bind at 1. rewrite class_step_no_rows by (reflexivity || exact Hlen).
  unfold bind at 1. rewrite class_step_no_rows by (reflexivity || exact Hlen).
  unfold bind at 1. rewrite class_step_no_rows by (reflexivity || exact Hlen).
  unfold bind at 1. rewrite class_step_no_rows by (reflexivity || exact Hlen).
  reflexivity.
Qed.

(** *** Further properties of [interaug]: what every returned window keeps *)






(** *** Further properties of [interaug]: sizes and labels *)

(** X1.  Whenever [interaug] returns, it returns [4 * (batch_size / 4)] windows
    and as many labels: never more than [batch_size], and fewer when
    [batch_size] is not a multiple of 4. *)
Theorem interaug_result_sizes
        (timg : list window) (label : list Z) (batch_size : nat)
        (g g' : G) (ws : list window) (ls : list Z) :
  interaug timg label batch_size g = Ok (ws, ls, g') ->
  length ws = 4 * (batch_size / 4) /\
  length ls = 4 * (batch_size / 4) /\
  length ws <= batch_size /\
  (batch_size mod 4 <> 0 -> length ws < batch_size).
Proof.
  intros E.
  destruct (@post_interaug timg label batch_size g (ws, ls) g' E)
    as [Hlen [_ [p [Hp Htake]]]].
  cbn [fst snd] in *.
  assert (Hls : length ls = 4 * (batch_size / 4)).
  { rewrite (take_length _ _ Htake), <- (Permutation_length Hp), length_seq.
    reflexivity. }
  pose proof (Nat.div_mod_eq batch_size 4) as Hdm.
  repeat split; [exact Hlen|exact Hls|lia|lia].
Qed.

Lemma grouped_labels_length (label : list Z) :
  length (grouped_labels label) <= length label.
Proof.
  rewrite grouped_labels_unfold, !length_app. unfold class_labels.
  induction label as [|l rest IH]; [simpl; lia|].
  cbn [filter length].
  destruct (Z.eqb_spec l (Z.of_nat 0)), (Z.eqb_spec l (Z.of_nat 1)),
    (Z.eqb_spec l (Z.of_nat 2)), (Z.eqb_spec l (Z.of_nat 3));
    cbn [length]; try lia.
Qed.

(** X3.  With fewer labels than the [4 * (batch_size / 4)] windows to return, the
    call raises: the index array built for the windows reaches past the end
    of the label array. *)
Theorem interaug_too_few_labels_raises
        (timg : list window) (label : list Z) (batch_size : nat) (g : G) :
  length label < 4 * (batch_size / 4) ->
  exists e, interaug timg label batch_size g = Raise e.
Proof.
  intros Hfew.
  destruct (interaug timg label batch_size g) as [[[ws ls] g']|e] eqn:E; [|eauto].
  exfalso.
  destruct (@post_interaug timg label batch_size g (ws, ls) g' E)
    as [_ [_ [p [Hp Htake]]]].
  cbn [snd] in Htake.
  pose proof (grouped_labels_length label) as Hg.
  remember (4 * (batch_size / 4)) as m eqn:Em.
  destruct m as [|m']; [lia|].
  assert (Hlast : In m' p) by (apply (Permutation_in _ Hp), in_seq; lia).
  apply take_Ok in Htake. clear -Htake Hlast Hg Hfew.
  induction Htake as [|i x idx' xs' Hi _ IH]; [contradiction|].
  destruct Hlast as [->|Hl]; [|exact (IH Hl)].
  assert (m' < length (grouped_labels label)) by (apply nth_error_Some; congruence).
  lia.
Qed.

(** X4.  The labels [interaug] returns are, in some order, the first
    [4 * (batch_size / 4)] of the input labels grouped by class (all labels
    0, then all labels 1, ...): labels beyond that prefix are never
    returned. *)
Theorem interaug_labels_prefix
        (timg : list window) (label : list Z) (batch_size : nat)
        (g g' : G) (ws : list window) (ls : list Z) :
  interaug timg label batch_size g = Ok (ws, ls, g') ->
  Permutation (firstn (4 * (batch_size / 4)) (grouped_labels label)) ls.
Proof.
  intros E.
  destruct (@post_interaug timg label batch_size g (ws, ls) g' E)
    as [_ [_ [p [Hp Htake]]]].
  cbn [snd] in Htake. eapply take_prefix_permutation; eassumption.
Qed.

Lemma class_labels_length (label : list Z) (c : nat) :
  length (class_labels label c) = count_occ Z.eq_dec label (Z.of_nat c).
Proof.
  unfold class_labels. induction label as [|l rest IH]; [reflexivity|].
  cbn [filter count_occ].
  destruct (Z.eqb_spec l (Z.of_nat c)) as [->|Hne].
  - destruct (Z.eq_dec (Z.of_nat c) (Z.of_nat c)); [|contradiction].
    simpl. f_equal. exact IH.
  - destruct (Z.eq_dec l (Z.of_nat c)); [contradiction|exact IH].
Qed.

(** X5.  When class 0 alone has at least [4 * (batch_size / 4)] examples in the
    input (as when the whole training set is passed), every label the call
    returns is 0, whatever class the windows were built from. *)
Theorem interaug_labels_all_class_0
        (timg : list window) (label : list Z) (batch_size : nat)
        (g g' : G) (ws : list window) (ls : list Z) :
  4 * (batch_size / 4) <= count_occ Z.eq_dec label 0%Z ->
  interaug timg label batch_size g = Ok (ws, ls, g') ->
  Forall (fun l => l = 0%Z) ls.
Proof.
  intros Hcount E.
  destruct (@post_interaug timg label batch_size g (ws, ls) g' E)
    as [_ [_ [p [Hp Htake]]]].
  cbn [snd] in Htake.
  pose proof (@take_prefix_permutation _ _ _ _ _ Hp Htake) as Hperm.
  eapply Permutation_Forall; [exact Hperm|].
  rewrite grouped_labels_unfold, firstn_app.
  pose proof (class_labels_length label 0) as Hl0. cbn [Z.of_nat] in Hl0.
  replace (4 * (batch_size / 4) - length (class_labels label 0)) with 0 by lia.
  cbn [firstn]. rewrite app_nil_r.
  apply Forall_forall. intros l Hl.
  assert (Hl' : In l (class_labels label 0)).
  { rewrite <- (firstn_skipn (4 * (batch_size / 4)) (class_labels label 0)).
    apply in_or_app. left. exact Hl. }
  clear Hl. rename Hl' into Hl. unfold class_labels in Hl. apply filter_In in Hl. destruct Hl as [_ Hl].
  apply Z.eqb_eq in Hl. exact Hl.
Qed.

(** *** Further properties of [interaug]: the class of each window *)

Lemma post_and {A : Type} (m : M A) (P Q : A -> Prop) :
  post m P -> post m Q -> post m (fun a => P a /\ Q a).
Proof. intros HP HQ g a g' E. split; [exact (HP _ _ _ E)|exact (HQ _ _ _ E)]. Qed.

(** The class each position of [np.concatenate(aug_data)] was built for:
    [n4] positions for class 0, then [n4] for class 1, ... *)
Definition block_classes (n4 a : nat) : list nat :=
  concat (map (fun c => repeat c n4) (range a)).

Lemma block_classes_4 (n4 : nat) :
  block_classes n4 4 = repeat 0 n4 ++ repeat 1 n4 ++ repeat 2 n4 ++ repeat 3 n4.
Proof. unfold block_classes. cbn [range seq map concat]. rewrite app_nil_r. reflexivity. Qed.

Lemma block_classes_length (n4 : nat) : length (block_classes n4 4) = 4 * n4.
Proof. rewrite block_classes_4, !length_app, !repeat_length. lia. Qed.

Lemma block_classes_count (n4 c : nat) :
  c < 4 -> count_occ Nat.eq_dec (block_classes n4 4) c = n4.
Proof.
  intros Hc. rewrite block_classes_4, !count_occ_app.
  rewrite !count_occ_repeat_if.
  repeat match goal with
         | |- context [Nat.eq_dec ?a ?b] => destruct (Nat.eq_dec a b); try lia
         end.
Qed.

Lemma post_outer_classes (timg : list window) (label : list Z) (batch_size : nat) :
  post (for_ (range 4) (class_step timg label batch_size) ([], []))
       (fun acc =>
          Forall2 (fun c w => built_from timg label (Z.of_nat c) w)
                  (block_classes (batch_size / 4) 4) (concat (fst acc))).
Proof.
  pose (I := fun (a : nat) (acc : list (list window) * list (list Z)) =>
               Forall2 (fun c w => built_from timg label (Z.of_nat c) w)
                       (block_classes (batch_size / 4) a) (concat (fst acc))).
  change (post (for_ (seq 0 4) (class_step timg label batch_size) ([], [])) (I (0 + 4))).
  apply post_for_seq; [constructor|].
  intros c acc _ Hacc.
  eapply post_weaken; [apply post_class_step|].
  intros acc' [blk [E1 [_ [Hlen Hblk]]]].
  unfold I, block_classes, range in *. rewrite E1, seq_S, map_app, !concat_app.
  apply Forall2_app; [exact Hacc|].
  cbn [map concat Nat.add]. rewrite !app_nil_r. rewrite <- Hlen.
  apply Forall2_of_repeat. exact Hblk.
Qed.

(** The full description of a returned pair: one index array [p], a
    rearrangement of [0 .. 4 * (batch_size / 4) - 1], such that the window
    at every output position [k] was built for the class of position [p[k]]
    and the label at [k] is the class-grouped input label at [p[k]]. *)
Lemma post_interaug_classes (timg : list window) (label : list Z) (batch_size : nat) :
  post (interaug timg label batch_size)
       (fun out =>
          exists p,
            Permutation (seq 0 (4 * (batch_size / 4))) p /\
            Forall2 (fun i w =>
                       built_from timg label
                                  (Z.of_nat (nth i (block_classes (batch_size / 4) 4) 0)) w)
                    p (fst out) /\
            Forall2 (fun i l => nth_error (grouped_labels label) i = Some l)
                    p (snd out)).
Proof.
  unfold interaug.
  eapply post_bind; [apply post_and; [apply post_outer|apply post_outer_classes]|].
  intros acc [[I1 [_ I3]] Hcls].
  eapply post_bind; [apply total_is_post, total_permutation|]. intros p Hp.
  post_lift_step. intros ws Hws.
  post_lift_step. intros ls Hls.
  apply post_ret. cbn [fst snd].
  assert (Hn : length (concat (fst acc)) = 4 * (batch_size / 4)) by exact I1.
  rewrite Hn in Hp. exists p. split; [exact Hp|]. split.
  - apply take_Ok in Hws. eapply Forall2_impl; [|exact Hws].
    cbv beta. intros i w Hi.
    exact (Forall2_nth_error_r 0 Hcls i Hi).
  - apply take_Ok in Hls. rewrite I3 in Hls. exact Hls.
Qed.

(** The windows of the shuffled array are class-balanced whatever the labels
    are: they can be assigned classes, each window built from input windows
    of its class, with exactly [batch_size / 4] windows per class. *)
Lemma interaug_arrays_class_balanced
        (timg : list window) (label : list Z) (batch_size : nat)
        (g g' : G) (ws : list window) (ls : list Z) :
  interaug timg label batch_size g = Ok (ws, ls, g') ->
  exists cs : list nat,
    Forall2 (fun c w => built_from timg label (Z.of_nat c) w) cs ws /\
    forall c, c < 4 -> count_occ Nat.eq_dec cs c = batch_size / 4.
Proof.
  intros E.
  destruct (@post_interaug_classes timg label batch_size g (ws, ls) g' E)
    as [p [Hp [Hws _]]].
  cbn [fst] in Hws.
  exists (map (fun i => nth i (block_classes (batch_size / 4) 4) 0) p).
  split; [apply Forall2_map_left; exact Hws|].
  assert (Hperm : Permutation (block_classes (batch_size / 4) 4)
                              (map (fun i => nth i (block_classes (batch_size / 4) 4) 0) p)).
  { rewrite <- (map_nth_range 0 (block_classes (batch_size / 4) 4)) at 1.
    apply Permutation_map. rewrite block_classes_length. exact Hp. }
  intros c Hc.
  rewrite <- (proj1 (Permutation_count_occ Nat.eq_dec _ _) Hperm c).
  apply block_classes_count. exact Hc.
Qed.

Lemma grouped_labels_balanced (label : list Z) (n4 : nat) :
  (forall c, c < 4 -> count_occ Z.eq_dec label (Z.of_nat c) = n4) ->
  grouped_labels label = map Z.of_nat (block_classes n4 4).
Proof.
  intros Hbal. rewrite grouped_labels_unfold, block_classes_4, !map_app, !map_repeat.
  unfold class_labels. rewrite !filter_eqb_repeat.
  rewrite (Hbal 0), (Hbal 1), (Hbal 2), (Hbal 3) by lia. reflexivity.
Qed.

(** On a class-balanced input (every class has exactly [batch_size / 4]
    examples) the two shuffled arrays are aligned: the label at every
    position is the class the window at that position was built from, and
    every class occurs [batch_size / 4] times among the labels. *)
Lemma interaug_arrays_balanced_pairing
        (timg : list window) (label : list Z) (batch_size : nat)
        (g g' : G) (ws : list window) (ls : list Z) :
  (forall c, c < 4 -> count_occ Z.eq_dec label (Z.of_nat c) = batch_size / 4) ->
  interaug timg label batch_size g = Ok (ws, ls, g') ->
  Forall2 (fun l w => built_from timg label l w) ls ws /\
  forall c, c < 4 -> count_occ Z.eq_dec ls (Z.of_nat c) = batch_size / 4.
Proof.
  intros Hbal E.
  destruct (@post_interaug_classes timg label batch_size g (ws, ls) g' E)
    as [p [Hp [Hws Hls]]].
  cbn [fst snd] in *.
  pose proof (grouped_labels_balanced label Hbal) as Hg.
  split.
  - eapply Forall2_impl; [|exact (Forall2_same_indices Hls Hws)].
    cbv beta. intros l w [i [Hl Hw]].
    rewrite Hg, nth_error_map in Hl.
    destruct (nth_error (block_classes (batch_size / 4) 4) i) as [c|] eqn:Ec;
      [|discriminate].
    inversion Hl; subst l. rewrite (nth_error_nth _ _ 0 Ec) in Hw. exact Hw.
  - intros c Hc.
    assert (Hperm : Permutation (grouped_labels label) ls).
    { apply take_permutation with (p := p).
      - rewrite Hg, length_map, block_classes_length. exact Hp.
      - apply take_of_Forall2. exact Hls. }
    rewrite <- (proj1 (Permutation_count_occ Z.eq_dec _ _) Hperm (Z.of_nat c)).
    rewrite grouped_labels_unfold, !count_occ_app.
    unfold class_labels. rewrite !filter_eqb_repeat.
    rewrite (Hbal 0), (Hbal 1), (Hbal 2), (Hbal 3) by lia.
    rewrite !count_occ_repeat_if.
    repeat match goal with
           | |- context [Z.eq_dec ?a ?b] => destruct (Z.eq_dec a b); try lia
           end.
Qed.

(** *** Further properties of [interaug]: when the call returns *)

(** X8.  For every [batch_size] below 4, with a window for every label, the call
    returns an empty window array and an empty label array and draws nothing
    from the generator. *)
Theorem interaug_batch_size_below_4
        (timg : list window) (label : list Z) (batch_size : nat) (g : G) :
  batch_size < 4 -> length label <= length timg ->
  interaug timg label batch_size g = Ok ([], [], g).
Proof.
  intros Hbs Hlen.
  assert (Hn : batch_size / 4 = 0) by (apply Nat.div_small; exact Hbs).
  unfold interaug, bind at 1. cbn [range seq for_].
  unfold bind at 1. rewrite class_step_no_rows by assumption.
  unfold bind at 1. rewrite class_step_no_rows by assumption.
  unfold bind at 1. rewrite class_step_no_rows by assumption.
  unfold bind at 1. rewrite class_step_no_rows by assumption.
  reflexivity.
Qed.

(** X9.  The call returns on every well-formed input that has enough labels: a
    window of shape (1, 22, 1125) for every label, labels that are class
    labels 0..3, every class present, and at least [4 * (batch_size / 4)]
    labels.  The input may be larger than [batch_size]. *)
Theorem interaug_returns
        (timg : list window) (label : list Z) (batch_size : nat) (g : G) :
  length label <= length timg ->
  Forall well_shaped timg ->
  Forall (fun l => (0 <= l < 4)%Z) label ->
  (forall c, c < 4 -> In (Z.of_nat c) label) ->
  4 * (batch_size / 4) <= length label ->
  exists ws ls g', interaug timg label batch_size g = Ok (ws, ls, g').
Proof.
  intros Hlen Hshape Hrange Hall Henough.
  assert (Htot : total (interaug timg label batch_size) (fun _ => True)).
  { apply total_interaug; [exact Hlen|intros _; split; assumption|].
    rewrite <- (Permutation_length (grouped_labels_permutation Hrange)).
    exact Henough. }
  destruct (Htot g) as [[ws ls] [g' [E _]]]. exists ws, ls, g'. exact E.
Qed.

Lemma take_past_end {A : Type} (a : list A) (idx : list nat) (i : nat) :
  In i idx -> length a <= i -> exists e, take a idx = Raise e.
Proof.
  induction idx as [|k rest IH]; simpl; intros Hin Hle; [contradiction|].
  destruct (getitem a k) as [x|e] eqn:E; [|eauto].
  destruct Hin as [->|Hin].
  - apply getitem_Ok in E. apply nth_error_None in Hle. congruence.
  - destruct (IH Hin Hle) as [e ->]. eauto.
Qed.

Lemma fails_lift {A : Type} (r : result A) (e : error) :
  r = Raise e -> fails (lift r).
Proof. intros -> g. exists e. reflexivity. Qed.

(** X20.  A label of one of the four classes at a position for which there
    is no window makes the call raise: the windows of the class are selected
    with the positions of its labels. *)
Theorem interaug_label_without_window_raises
        (timg : list window) (label : list Z) (batch_size c k : nat) (g : G) :
  c < 4 -> nth_error label k = Some (Z.of_nat c) -> length timg <= k ->
  exists e, interaug timg label batch_size g = Raise e.
Proof.
  intros Hc Hk Hlen. revert g.
  change (fails (interaug timg label batch_size)).
  unfold interaug. apply fails_bind_now.
  apply fails_for with (x := c); [apply in_seq; lia|].
  intros acc. unfold class_step. apply fails_bind_now.
  apply where_eq_spec in Hk.
  destruct (@take_past_end _ timg _ k Hk Hlen) as [e He].
  exact (@fails_lift _ _ e He).
Qed.

(** *** The tensors returned

    The last lines of the function convert the two arrays to tensors.
    [torch.from_numpy(aug_data).float()] rounds every sample of the float64
    buffer to a 32-bit float: [float32] is the rounding of one sample.  The
    labels are integers: [.long()] and [.to(device)] leave them as they
    are. *)

Variable float32 : sample -> sample.

(** [w.float()] on one window. *)
Definition window_float (w : window) : window := map (map float32) w.

(** The whole of [interaug]: the arrays of the NumPy part, converted. *)
Definition interaug_tensors (timg : list window) (label : list Z) (batch_size : nat)
  : M (list window * list Z) :=
  out <- interaug timg label batch_size ;;
  let aug_data := map window_float (fst out) in
  let aug_label := snd out in
  ret (aug_data, aug_label).

(** A returned window built for class [c]: each of its eight segments is the
    conversion of the same segment of an input window labelled [c]. *)
Definition built_from_float32 (timg : list window) (label : list Z) (c : Z) (w : window)
  : Prop :=
  well_shaped w /\
  forall j, j < 8 ->
    exists k src, nth_error label k = Some c /\ nth_error timg k = Some src /\
                  window_seg j w = window_seg j (window_float src).

Lemma window_seg_float (j : nat) (w : window) :
  window_seg j (window_float w) = window_float (window_seg j w).
Proof.
  unfold window_seg, window_float. rewrite !map_map.
  apply map_ext. intros row. apply slice_map.
Qed.

Lemma well_shaped_float (w : window) :
  well_shaped w -> well_shaped (window_float w).
Proof.
  unfold well_shaped, window_float. intros [H1 H2]. split.
  - rewrite length_map. exact H1.
  - apply Forall_map. eapply Forall_impl; [|exact H2].
    cbv beta. intros row Hrow. rewrite length_map. exact Hrow.
Qed.

Lemma built_from_float (timg : list window) (label : list Z) (c : Z) (w : window) :
  built_from timg label c w -> built_from_float32 timg label c (window_float w).
Proof.
  intros [Hshape Hseg]. split; [apply well_shaped_float; exact Hshape|].
  intros j Hj. destruct (Hseg j Hj) as [k [src [Hl [Hs E]]]].
  exists k, src. split; [exact Hl|]. split; [exact Hs|].
  rewrite !window_seg_float, E. reflexivity.
Qed.

(** Where the conversion changes no sample of the input windows, the
    segments are those of the input windows themselves. *)
Lemma built_from_float32_exact (timg : list window) (label : list Z) (c : Z) (w : window) :
  Forall (fun src => window_float src = src) timg ->
  built_from_float32 timg label c w -> built_from timg label c w.
Proof.
  intros Hexact [Hshape Hseg]. split; [exact Hshape|].
  intros j Hj. destruct (Hseg j Hj) as [k [src [Hl [Hs E]]]].
  exists k, src. split; [exact Hl|]. split; [exact Hs|].
  rewrite Forall_forall in Hexact.
  rewrite (Hexact src (nth_error_In _ _ Hs)) in E. exact E.
Qed.

Lemma interaug_tensors_Ok
      (timg : list window) (label : list Z) (batch_size : nat)
      (g g' : G) (ws : list window) (ls : list Z) :
  interaug_tensors timg label batch_size g = Ok (ws, ls, g') ->
  exists aug_data,
    interaug timg label batch_size g = Ok (aug_data, ls, g') /\
    ws = map window_float aug_data.
Proof.
  unfold interaug_tensors, bind, ret.
  destruct (interaug timg label batch_size g) as [[[aug_data aug_label] g0]|e];
    [|discriminate].
  cbn [fst snd]. intros H. inversion H; subst. eauto.
Qed.

(** X6.  The returned windows are class-balanced whatever the labels are: they
    can be assigned classes, each window being made, segment by segment, of
    the 32-bit conversion of segments of input windows of its class, with
    exactly [batch_size / 4] windows per class. *)
Theorem interaug_windows_class_balanced
        (timg : list window) (label : list Z) (batch_size : nat)
        (g g' : G) (ws : list window) (ls : list Z) :
  interaug_tensors timg label batch_size g = Ok (ws, ls, g') ->
  exists cs : list nat,
    Forall2 (fun c w => built_from_float32 timg label (Z.of_nat c) w) cs ws /\
    forall c, c < 4 -> count_occ Nat.eq_dec cs c = batch_size / 4.
Proof.
  intros E. apply interaug_tensors_Ok in E. destruct E as [aug_data [E ->]].
  destruct (@interaug_arrays_class_balanced _ _ _ _ _ _ _ E) as [cs [Hcs Hcount]].
  exists cs. split; [|exact Hcount].
  apply Forall2_map_right. eapply Forall2_impl; [|exact Hcs].
  cbv beta. intros c w. apply built_from_float.
Qed.

(** X7.  On a class-balanced input (every class has exactly [batch_size / 4]
    examples) the routine does what is expected of it: the label returned at
    every position is the class of the input windows whose converted
    segments make the window at that position, and every class occurs
    [batch_size / 4] times among the returned labels. *)
Theorem interaug_balanced_batch_pairing
        (timg : list window) (label : list Z) (batch_size : nat)
        (g g' : G) (ws : list window) (ls : list Z) :
  (forall c, c < 4 -> count_occ Z.eq_dec label (Z.of_nat c) = batch_size / 4) ->
  interaug_tensors timg label batch_size g = Ok (ws, ls, g') ->
  Forall2 (fun l w => built_from_float32 timg label l w) ls ws /\
  forall c, c < 4 -> count_occ Z.eq_dec ls (Z.of_nat c) = batch_size / 4.
Proof.
  intros Hbal E. apply interaug_tensors_Ok in E. destruct E as [aug_data [E ->]].
  destruct (@interaug_arrays_balanced_pairing _ _ _ _ _ _ _ Hbal E) as [Hpair Hcount].
  split; [|exact Hcount].
  apply Forall2_map_right. eapply Forall2_impl; [|exact Hpair].
  cbv beta. intros l w. apply built_from_float.
Qed.

End Interaug.

End Augment.

(** ** A concrete generator for worked examples

    The generator reads its raw draws from a tape and yields 0 once the tape
    is exhausted. *)

Definition next_tape (g : list nat) : nat * list nat :=
  match g with
  | [] => (0, [])
  | r :: rest => (r, rest)
  end.

Definition const_window (v : Z) : list (list Z) := repeat (repeat v 1125) 22.

(** A window whose first 1000 samples of every row are [v] and whose last 125
    are 0. *)
Definition spliced_const (v : Z) : list (list Z) :=
  repeat (repeat v 1000 ++ repeat 0%Z 125) 22.

Definition demo_interaug := @Augment.interaug (list nat) next_tape Z 0%Z.

(** The whole function on integer samples: small integers are 32-bit floats,
    which the conversion leaves as they are. *)
Definition demo_interaug_tensors :=
  @Augment.interaug_tensors (list nat) next_tape Z 0%Z (fun x => x).


(** ** Worked runs of [interaug]

    Source windows are constant: every sample of a window of class [c] is
    [10 + c], so the class a synthetic window was built from can be read off
    its samples.  With an exhausted tape every draw is 0: each segment is
    copied from the first window of its class and the final permutation is
    the identity. *)

Definition balanced_windows : list (list (list Z)) :=
  [const_window 10; const_window 11; const_window 12; const_window 13].

Definition balanced_labels : list Z := [0; 1; 2; 3]%Z.

(** A batch of 8 with every class present: five windows of class 0, one of
    each other class. *)
Definition unbalanced_windows : list (list (list Z)) :=
  [const_window 10; const_window 10; const_window 10; const_window 10;
   const_window 10; const_window 11; const_window 12; const_window 13].

Definition unbalanced_labels : list Z := [0; 0; 0; 0; 0; 1; 2; 3]%Z.

(** A batch in which class 3 has no example. *)
Definition three_class_windows : list (list (list Z)) :=
  [const_window 10; const_window 11; const_window 12].

Definition three_class_labels : list Z := [0; 1; 2]%Z.

(** C1, evaluated.  On a batch of 8 with all four classes present,
    [interaug] with [batch_size = 8] returns 8 windows and 8 labels, but the
    labels are the input labels: class 0 occurs 5 times and each other class
    once, not [8 / 4 = 2] times each. *)
Theorem interaug_unbalanced_label_counts :
  exists ws ls g',
    demo_interaug unbalanced_windows unbalanced_labels 8 [] = Ok (ws, ls, g') /\
    length ws = 8 /\ length ls = 8 /\
    count_occ Z.eq_dec ls 0%Z = 5 /\
    count_occ Z.eq_dec ls 1%Z = 1 /\
    count_occ Z.eq_dec ls 2%Z = 1 /\
    count_occ Z.eq_dec ls 3%Z = 1.
Proof.
  exists (map spliced_const [10; 10; 11; 11; 12; 12; 13; 13]%Z),
         [0; 0; 0; 0; 0; 1; 2; 3]%Z, [].
  split; [vm_compute; reflexivity|].
  repeat split.
Qed.

(** C2, evaluated.  On the same batch the window returned at index 2 is made
    of the samples of the class-1 input window (value 11, input index 5,
    label 1), while the label returned at index 2 is 0. *)
Theorem interaug_unbalanced_mislabels :
  exists ws ls g',
    demo_interaug unbalanced_windows unbalanced_labels 8 [] = Ok (ws, ls, g') /\
    nth_error ws 2 = Some (spliced_const 11) /\
    nth_error ls 2 = Some 0%Z /\
    nth_error unbalanced_windows 5 = Some (const_window 11) /\
    nth_error unbalanced_labels 5 = Some 1%Z /\
    Augment.window_seg 0 (spliced_const 11) = Augment.window_seg 0 (const_window 11).
Proof.
  exists (map spliced_const [10; 10; 11; 11; 12; 12; 13; 13]%Z),
         [0; 0; 0; 0; 0; 1; 2; 3]%Z, [].
  split; [vm_compute; reflexivity|].
  repeat split.
Qed.

(** C3, evaluated.  On the same batch, which has a multiple of 4 windows and
    every class, the window returned at index 2 carries the label 0, and no
    input window labelled 0 has its samples on the first segment: they are
    those of the class-1 window.  The source of a segment is an input window
    of the class the window was built for, which on this batch is not the
    class of the returned label. *)
Theorem interaug_unbalanced_segment_source :
  exists ws ls g' w,
    demo_interaug_tensors unbalanced_windows unbalanced_labels 8 [] = Ok (ws, ls, g') /\
    nth_error ws 2 = Some w /\
    nth_error ls 2 = Some 0%Z /\
    (forall k src,
        nth_error unbalanced_labels k = Some 0%Z ->
        nth_error unbalanced_windows k = Some src ->
        Augment.window_seg 0 w <> Augment.window_seg 0 src) /\
    nth_error unbalanced_labels 5 = Some 1%Z /\
    nth_error unbalanced_windows 5 = Some (const_window 11) /\
    forall j, j < 8 ->
      Augment.window_seg j w = Augment.window_seg j (const_window 11).
Proof.
  exists (map spliced_const [10; 10; 11; 11; 12; 12; 13; 13]%Z),
         [0; 0; 0; 0; 0; 1; 2; 3]%Z, [], (spliced_const 11).
  split; [vm_compute; reflexivity|].
  split; [reflexivity|]. split; [reflexivity|]. split; [|split; [|split]].
  - intros k src Hl Hs.
    do 5 (destruct k as [|k];
          [inversion Hs; subst src; vm_compute; discriminate|]).
    do 3 (destruct k as [|k]; [discriminate Hl|]).
    destruct k; discriminate Hl.
  - reflexivity.
  - reflexivity.
  - intros j Hj.
    do 8 (destruct j as [|j]; [vm_compute; reflexivity|]). lia.
Qed.

Lemma interaug_labels_permutation_witness :
  exists ws ls g',
    demo_interaug unbalanced_windows unbalanced_labels 8 [] = Ok (ws, ls, g') /\
    length ws = 8 /\
    Permutation unbalanced_labels ls /\
    forall c, count_occ Z.eq_dec ls c = count_occ Z.eq_dec unbalanced_labels c.
Proof.
  apply (@Augment.interaug_labels_permutation
           (list nat) next_tape Z 0%Z unbalanced_windows unbalanced_labels 8 []).
  - reflexivity.
  - reflexivity.
  - reflexivity.
  - apply Augment.Forall_shape_ok. vm_compute. reflexivity.
  - unfold unbalanced_labels. repeat constructor; lia.
  - intros c Hc. unfold unbalanced_labels.
    destruct c as [|[|[|[|c]]]]; simpl; [tauto|tauto|tauto|tauto|lia].
Defined.

(** C5, evaluated.  With class 3 absent and [batch_size = 4] the call raises
    [ValueError]. *)
Lemma interaug_missing_class_ValueError :
  demo_interaug three_class_windows three_class_labels 4 [] = Raise ValueError.
Proof. vm_compute. reflexivity. Qed.

Lemma interaug_empty_class_raises_witness :
  3 < 4 /\ ~ In (Z.of_nat 3) three_class_labels /\ 4 <= 4 /\
  exists e, demo_interaug three_class_windows three_class_labels 4 [5; 1; 3] = Raise e.
Proof.
  assert (H1 : 3 < 4) by lia.
  assert (H2 : ~ In (Z.of_nat 3) three_class_labels)
    by (simpl; intros [H|[H|[H|[]]]]; discriminate).
  assert (H3 : 4 <= 4) by lia.
  split; [exact H1|]. split; [exact H2|]. split; [exact H3|].
  exact (@Augment.interaug_empty_class_raises
           (list nat) next_tape Z 0%Z three_class_windows three_class_labels
           4 3 [5; 1; 3] H1 H2 H3).
Defined.

(** C6, evaluated.  With [batch_size = 3] the call returns an empty pair. *)
Lemma interaug_batch_size_3_no_failure :
  demo_interaug balanced_windows balanced_labels 3 [] = Ok ([], [], []).
Proof. vm_compute. reflexivity. Qed.

Lemma interaug_batch_size_3_returns_empty_witness :
  length balanced_labels <= length balanced_windows /\
  demo_interaug balanced_windows balanced_labels 3 [7; 7] = Ok ([], [], [7; 7]).
Proof.
  assert (H : length balanced_labels <= length balanced_windows) by (simpl; lia).
  split; [exact H|].
  exact (@Augment.interaug_batch_size_3_returns_empty
           (list nat) next_tape Z 0%Z balanced_windows balanced_labels [7; 7] H).
Defined.

(** * The network: [src/networks.py]

    Two views of the modules.  Construction and shape questions are settled
    on shapes (lists of dimensions) and on the layer descriptions the
    constructors are called with; the numeric definition of a torch layer
    plays no part there.  Data-flow questions about [forward] are settled on
    an abstract tensor type, with every torch layer a function on it. *)

Definition rbind {A B : Type} (r : result A) (k : A -> result B) : result B :=
  match r with
  | Ok a => k a
  | Raise e => Raise e
  end.

Module Net.

Notation "x <- r ;; k" := (rbind r (fun x => k))
  (at level 61, r at next level, right associativity).

(** ** Shapes *)

Definition shape : Type := list nat.

(** [len(range(start, stop, step))] for [step > 0]; also the number of
    positions selected by the slice [start::step] on an axis of size [stop]. *)
Definition arange_len (start stop step : nat) : nat :=
  (stop - start + (step - 1)) / step.

(** [t.unsqueeze(dim)]. *)
Definition unsqueeze (dim : nat) (s : shape) : shape :=
  firstn dim s ++ 1 :: skipn dim s.

(** [torch.transpose(t, 1, 2)] on a tensor with three axes. *)
Definition transpose_1_2 (s : shape) : result shape :=
  match s with
  | [n; a; b] => Ok [n; b; a]
  | _ => Raise IndexError
  end.

(** Broadcasting of two shapes written innermost axis first. *)
Fixpoint broadcast_rev (a b : shape) : result shape :=
  match a, b with
  | [], _ => Ok b
  | _, [] => Ok a
  | x :: a', y :: b' =>
      if (x =? y) || (y =? 1) then
        rest <- broadcast_rev a' b' ;; Ok (x :: rest)
      else if x =? 1 then
        rest <- broadcast_rev a' b' ;; Ok (y :: rest)
      else Raise RuntimeError
  end.

(** The shape of [a * b]. *)
Definition broadcast (a b : shape) : result shape :=
  rest <- broadcast_rev (rev a) (rev b) ;; Ok (rev rest).

(** [src.expand(dst)] is allowed: aligned from the innermost axis, every
    axis of [src] has the size of the target axis or size 1 (a size-1 axis
    expands to any size, 0 included). *)
Fixpoint expandable_rev (src dst : shape) : bool :=
  match src, dst with
  | [], _ => true
  | _ :: _, [] => false
  | x :: src', y :: dst' => ((x =? y) || (x =? 1)) && expandable_rev src' dst'
  end.

(** [target[...] = src]: the source is expanded to the shape of the target
    slice, [RuntimeError] when it cannot be. *)
Definition assign (target src : shape) : result unit :=
  if expandable_rev (rev src) (rev target) then Ok tt else Raise RuntimeError.

(** ** [PositionalEncoding.__init__], on shapes *)

Definition PositionalEncoding_init (input_embedding_size num_channels : nat)
  : result shape :=
  let pos_encoding := [num_channels; input_embedding_size] in
  let position := unsqueeze 1 [arange_len 0 num_channels 1] in
  let div_term := [arange_len 0 input_embedding_size 2] in
  angles <- broadcast position div_term ;;
  _ <- assign [num_channels; arange_len 0 input_embedding_size 2] angles ;;
  _ <- assign [num_channels; arange_len 1 input_embedding_size 2] angles ;;
  Ok (unsqueeze 0 pos_encoding).

(** ** Layer descriptions *)

Inductive torch_module : Type :=
| Linear (in_features out_features : nat)
| MultiheadAttention (embed_dim num_heads : nat)
| LayerNorm (normalized_shape : nat)
| Dropout
| SiLU
| Conv2d (in_channels out_channels : nat) (kernel_size stride : nat * nat)
| BatchNorm2d (num_features : nat)
| AvgPool2d (kernel_size stride : nat * nat)
| Flatten (start_dim : nat).

(** Output size of a sliding window of size [k] and stride [s] over an axis
    of size [n] (no padding, no dilation). *)
Definition window_count (n k s : nat) : nat := (n - k) / s + 1.

(** The shape a layer of the convolutional stack produces from a batched
    input (N, C, H, W).  A convolution needs an input with its number of
    channels, at least one output channel and a kernel that fits.  (In
    training mode [nn.BatchNorm2d] moreover raises [ValueError] on an input
    with a single value per channel; in [convnet] such an input only arises
    from a window that the next convolution or the pooling rejects, so the
    rule below changes the kind of the error there, not whether the stack
    raises.) *)
Definition layer_shape (m : torch_module) (s : shape) : result shape :=
  match m, s with
  | Conv2d cin cout (kh, kw) (sh, sw), [n; c; h; w] =>
      if (c =? cin) && (0 <? cout) && (kh <=? h) && (kw <=? w)
      then Ok [n; cout; window_count h kh sh; window_count w kw sw]
      else Raise RuntimeError
  | BatchNorm2d f, [n; c; h; w] =>
      if c =? f then Ok s else Raise RuntimeError
  | AvgPool2d (kh, kw) (sh, sw), [n; c; h; w] =>
      if (kh <=? h) && (kw <=? w)
      then Ok [n; c; window_count h kh sh; window_count w kw sw]
      else Raise RuntimeError
  | SiLU, _ => Ok s
  | Dropout, _ => Ok s
  | Flatten d, _ => Ok (firstn d s ++ [fold_right Nat.mul 1 (skipn d s)])
  | _, _ => Raise RuntimeError
  end.

(** [nn.Sequential]: the layers in order. *)
Fixpoint Sequential_shape (layers : list torch_module) (s : shape) : result shape :=
  match layers with
  | [] => Ok s
  | m :: rest => s' <- layer_shape m s ;; Sequential_shape rest s'
  end.

(** [self.convnet] of [EEGTransformer.__init__]. *)
Definition convnet (input_embedding_size : nat) : list torch_module :=
  [ Conv2d 1 40 (1, 20) (1, 1);
    BatchNorm2d 40;
    SiLU;
    Conv2d 40 40 (22, 1) (1, 1);
    BatchNorm2d 40;
    SiLU;
    AvgPool2d (1, 30) (1, 15);
    Dropout;
    Conv2d 40 input_embedding_size (1, 1) (1, 1);
    Flatten 2 ].

(** The featurizer as [EEGTransformer.forward] runs it: [self.convnet]
    followed by [torch.transpose(x, 1, 2)]. *)
Definition featurizer_shape (input_embedding_size : nat) (s : shape) : result shape :=
  s' <- Sequential_shape (convnet input_embedding_size) s ;;
  transpose_1_2 s'.

(** *** Facts about the shapes *)

Lemma broadcast_column_row (c k : nat) :
  broadcast [c; 1] [k] = Ok [c; k].
Proof.
  unfold broadcast. cbn [rev app broadcast_rev rbind].
  destruct (Nat.eqb_spec 1 k) as [<-|Hk]; [reflexivity|].
  destruct (Nat.eqb_spec k 1) as [->|_]; reflexivity.
Qed.

Lemma assign_columns (c k k' : nat) :
  assign [c; k'] [c; k] = if (k =? k') || (k =? 1) then Ok tt else Raise RuntimeError.
Proof.
  unfold assign. cbn [rev app expandable_rev].
  rewrite Nat.eqb_refl, andb_true_r. reflexivity.
Qed.

(** The constructor succeeds exactly when the cosine columns fit: the
    [ceil(E/2)] computed columns are as many as the [floor(E/2)] target
    columns, or there is a single computed column, which expands. *)
Lemma PositionalEncoding_init_cases (input_embedding_size num_channels : nat) :
  PositionalEncoding_init input_embedding_size num_channels =
  if (arange_len 0 input_embedding_size 2 =? arange_len 1 input_embedding_size 2)
     || (arange_len 0 input_embedding_size 2 =? 1)
  then Ok [1; num_channels; input_embedding_size]
  else Raise RuntimeError.
Proof.
  unfold PositionalEncoding_init.
  replace (unsqueeze 1 [arange_len 0 num_channels 1]) with [num_channels; 1].
  - rewrite broadcast_column_row. cbn [rbind].
    rewrite !assign_columns, Nat.eqb_refl. cbn [orb rbind].
    destruct ((arange_len 0 input_embedding_size 2 =? arange_len 1 input_embedding_size 2)
              || (arange_len 0 input_embedding_size 2 =? 1)); reflexivity.
  - unfold unsqueeze, arange_len. cbn [firstn skipn app].
    rewrite Nat.sub_0_r, Nat.add_0_r, Nat.div_1_r. reflexivity.
Qed.

Lemma arange_len_even_columns (n : nat) : arange_len 0 n 2 = (n + 1) / 2.
Proof. unfold arange_len. rewrite Nat.sub_0_r. reflexivity. Qed.

Lemma arange_len_odd_columns (n : nat) : arange_len 1 n 2 = n / 2.
Proof.
  unfold arange_len. destruct n as [|n]; [reflexivity|].
  f_equal. simpl. lia.
Qed.

Lemma cosine_columns_fit (n : nat) :
  ((n + 1) / 2 =? n / 2) || ((n + 1) / 2 =? 1) = Nat.even n || (n =? 1).
Proof.
  destruct (Nat.Even_or_Odd n) as [[k ->]|[k ->]].
  - assert (H1 : (2 * k + 1) / 2 = k)
      by (symmetry; apply (Nat.div_unique (2 * k + 1) 2 k 1); lia).
    assert (H2 : (2 * k) / 2 = k)
      by (symmetry; apply (Nat.div_unique (2 * k) 2 k 0); lia).
    rewrite H1, H2, Nat.eqb_refl.
    replace (Nat.even (2 * k)) with true; [reflexivity|].
    symmetry. apply Nat.even_spec. exists k. lia.
  - assert (H1 : (2 * k + 1 + 1) / 2 = k + 1)
      by (symmetry; apply (Nat.div_unique (2 * k + 1 + 1) 2 (k + 1) 0); lia).
    assert (H2 : (2 * k + 1) / 2 = k)
      by (symmetry; apply (Nat.div_unique (2 * k + 1) 2 k 1); lia).
    rewrite H1, H2.
    replace (Nat.even (2 * k + 1)) with false.
    + destruct (Nat.eqb_spec (k + 1) k) as [H|_]; [lia|]. cbn [orb].
      destruct (Nat.eqb_spec (k + 1) 1), (Nat.eqb_spec (2 * k + 1) 1);
        try reflexivity; lia.
    + symmetry. rewrite <- Nat.negb_odd. apply negb_false_iff.
      apply Nat.odd_spec. exists k. reflexivity.
Qed.

Lemma PositionalEncoding_init_parity (input_embedding_size num_channels : nat) :
  PositionalEncoding_init input_embedding_size num_channels =
  if Nat.even input_embedding_size || (input_embedding_size =? 1)
  then Ok [1; num_channels; input_embedding_size]
  else Raise RuntimeError.
Proof.
  rewrite PositionalEncoding_init_cases,
    arange_len_even_columns, arange_len_odd_columns, cosine_columns_fit.
  reflexivity.
Qed.

Lemma odd_not_one (n : nat) :
  Nat.even n || (n =? 1) = false <-> Nat.odd n = true /\ 3 <= n.
Proof.
  rewrite <- Nat.negb_even, orb_false_iff, negb_true_iff, Nat.eqb_neq.
  split; intros [H1 H2]; (split; [exact H1|]).
  - destruct n as [|[|[|n']]]; try lia; discriminate H1.
  - lia.
Qed.

(** C8.  The convolutional featurizer is shape-deterministic: for every
    batch size [N] and every [input_embedding_size] of at least 1, [N]
    windows of shape (N, 1, 22, 1125) leave [self.convnet] with shape
    (N, input_embedding_size, 72) and, after the transpose of [forward],
    with shape (N, 72, input_embedding_size).  The length 72 is the number
    of pooling windows (kernel 30, stride 15) over the 1106 positions left
    by the width-20 convolution of 1125 samples; it depends on nothing
    else. *)
Theorem featurizer_shape_deterministic (N input_embedding_size : nat) :
  0 < input_embedding_size ->
  Sequential_shape (convnet input_embedding_size) [N; 1; 22; 1125]
  = Ok [N; input_embedding_size; 72] /\
  featurizer_shape input_embedding_size [N; 1; 22; 1125]
  = Ok [N; 72; input_embedding_size] /\
  window_count (window_count 1125 20 1) 30 15 = 72.
Proof.
  intros HE. destruct input_embedding_size as [|E]; [lia|]. repeat split.
Qed.

(** ** Construction of the modules *)

Record TransformerBlock_modules : Type := {
  m_self_attn : torch_module;
  m_norm1 : torch_module;
  m_linear1 : torch_module;
  m_linear2 : torch_module;
  m_norm2 : torch_module;
  m_dropout : torch_module;
  m_silu : torch_module
}.

Record EEGTransformer_modules : Type := {
  m_input_embedding : torch_module;
  m_pos_encoding : shape;
  m_encoder : list TransformerBlock_modules;
  m_convnet : list torch_module;
  m_fc : list torch_module
}.

Section Construction.

(** The constructor of a torch layer: it accepts the description or raises.
    Which arguments torch refuses is the library's business. *)
Variable torch_new : torch_module -> result unit.

Definition new (m : torch_module) : result torch_module :=
  _ <- torch_new m ;; Ok m.

Fixpoint new_all (ms : list torch_module) : result (list torch_module) :=
  match ms with
  | [] => Ok []
  | m :: rest => m' <- new m ;; rest' <- new_all rest ;; Ok (m' :: rest')
  end.

Definition TransformerBlock_init (input_embedding_size num_heads hidden_size : nat)
  : result TransformerBlock_modules :=
  self_attn <- new (MultiheadAttention input_embedding_size num_heads) ;;
  norm1 <- new (LayerNorm input_embedding_size) ;;
  linear1 <- new (Linear input_embedding_size hidden_size) ;;
  linear2 <- new (Linear hidden_size input_embedding_size) ;;
  norm2 <- new (LayerNorm input_embedding_size) ;;
  dropout <- new Dropout ;;
  silu <- new SiLU ;;
  Ok {| m_self_attn := self_attn; m_norm1 := norm1; m_linear1 := linear1;
        m_linear2 := linear2; m_norm2 := norm2; m_dropout := dropout;
        m_silu := silu |}.

Fixpoint encoder_init (num_layers input_embedding_size num_heads hidden_size : nat)
  : result (list TransformerBlock_modules) :=
  match num_layers with
  | 0 => Ok []
  | S k =>
      blk <- TransformerBlock_init input_embedding_size num_heads hidden_size ;;
      rest <- encoder_init k input_embedding_size num_heads hidden_size ;;
      Ok (blk :: rest)
  end.

(** [EEGTransformer.__init__]: the modules in the order they are built.
    Freezing the parameters of [input_embedding] changes no shape. *)
Definition EEGTransformer_init
           (num_layers num_channels num_heads window_size
            input_embedding_size hidden_size num_classes : nat)
  : result EEGTransformer_modules :=
  input_embedding <- new (Linear window_size input_embedding_size) ;;
  pos_encoding <- PositionalEncoding_init input_embedding_size num_channels ;;
  encoder <- encoder_init num_layers input_embedding_size num_heads hidden_size ;;
  convnet <- new_all (convnet input_embedding_size) ;;
  fc <- new_all [LayerNorm input_embedding_size;
                 Linear input_embedding_size num_classes] ;;
  Ok {| m_input_embedding := input_embedding; m_pos_encoding := pos_encoding;
        m_encoder := encoder; m_convnet := convnet; m_fc := fc |}.

(** C10, as the code behaves.  For an odd [input_embedding_size] of 3 or
    more the constructor of the positional encoder raises on the assignment
    of the cosine columns ([ceil(E/2)] computed columns against [floor(E/2)]
    target columns), and so does the constructor of the model, whatever else
    it is given.  For every even size, and for size 1, where the single
    computed column expands to the empty target, the positional encoder is
    constructed. *)
Theorem PositionalEncoding_init_odd_size (input_embedding_size num_channels : nat) :
  (PositionalEncoding_init input_embedding_size num_channels = Raise RuntimeError
   <-> Nat.odd input_embedding_size = true /\ 3 <= input_embedding_size) /\
  (PositionalEncoding_init input_embedding_size num_channels
   = Ok [1; num_channels; input_embedding_size]
   <-> Nat.even input_embedding_size = true \/ input_embedding_size = 1) /\
  (Nat.odd input_embedding_size = true -> 3 <= input_embedding_size ->
   forall num_layers num_heads window_size hidden_size num_classes,
   exists e,
     EEGTransformer_init num_layers num_channels num_heads window_size
                         input_embedding_size hidden_size num_classes
     = Raise e).
Proof.
  pose proof (PositionalEncoding_init_parity input_embedding_size num_channels) as Hinit.
  pose proof (odd_not_one input_embedding_size) as Hodd1.
  destruct (Nat.even input_embedding_size || (input_embedding_size =? 1)) eqn:Efit.
  - (* the columns fit *)
    split; [|split].
    + rewrite Hinit. split; [discriminate|].
      intros H. apply Hodd1 in H. discriminate H.
    + rewrite Hinit. split; [intros _|reflexivity].
      apply orb_true_iff in Efit. destruct Efit as [H|H]; [left; exact H|].
      right. apply Nat.eqb_eq. exact H.
    + intros H1 H2. assert (Hf : true = false) by (apply Hodd1; split; assumption).
      discriminate Hf.
  - split; [|split].
    + rewrite Hinit. split; [intros _; apply Hodd1; reflexivity|reflexivity].
    + rewrite Hinit. split; [discriminate|].
      apply orb_false_iff in Efit. destruct Efit as [H1 H2].
      apply Nat.eqb_neq in H2. intros [H|H]; congruence.
    + intros _ _ num_layers num_heads window_size hidden_size num_classes.
      unfold EEGTransformer_init.
      destruct (new (Linear window_size input_embedding_size)) as [m|e];
        [|exists e; reflexivity].
      cbn [rbind]. rewrite Hinit. exists RuntimeError. reflexivity.
Qed.

End Construction.

(** ** [forward], on abstract tensors *)

Section Forward.

Variable tensor : Type.

(** [x + y]. *)
Variable add : tensor -> tensor -> tensor.

(** The generator torch draws dropout masks from, and what [nn.Dropout] in
    training mode does to its input once the mask is drawn. *)
Variable T : Type.
Variable mask : Type.
Variable sample_mask : T -> mask * T.
Variable drop : mask -> tensor -> tensor.

(** Shape bookkeeping of [EEGTransformer.forward]. *)
Variable unsqueeze_1 : tensor -> tensor.
Variable transpose12 : tensor -> tensor.
Variable mean_1 : tensor -> tensor.

(** [pos_encoding[:, :x.size(1)]]. *)
Variable crop : tensor -> tensor -> tensor.

Definition Rand (A : Type) : Type := T -> A * T.

Definition rret {A : Type} (a : A) : Rand A := fun t => (a, t).

Definition rnd_bind {A B : Type} (m : Rand A) (k : A -> Rand B) : Rand B :=
  fun t => let (a, t') := m t in k a t'.

Notation "x <~ m ;; k" := (rnd_bind m (fun x => k))
  (at level 61, m at next level, right associativity).

(** [nn.Dropout.forward]: the identity outside training mode. *)
Definition Dropout_forward (training : bool) (x : tensor) : Rand tensor :=
  if training then fun t => let (m, t') := sample_mask t in (drop m x, t')
  else rret x.

Record PositionalEncoding : Type := {
  pos_table : tensor
}.

Definition PositionalEncoding_forward (pe : PositionalEncoding) (x : tensor) : tensor :=
  add x (crop (pos_table pe) x).

Record TransformerBlock : Type := {
  self_attn : tensor -> tensor;
  norm1 : tensor -> tensor;
  linear1 : tensor -> tensor;
  linear2 : tensor -> tensor;
  norm2 : tensor -> tensor;
  silu : tensor -> tensor;
  training : bool
}.

Definition TransformerBlock_forward (self : TransformerBlock) (x : tensor) : Rand tensor :=
  let attn_output := self_attn self x in
  d <~ Dropout_forward (training self) attn_output ;;
  let x := add x d in
  let x := norm1 self (add x attn_output) in
  let ff_output := linear1 self x in
  let ff_output := linear2 self ff_output in
  d <~ Dropout_forward (training self) ff_output ;;
  let x := add x d in
  let x := norm2 self x in
  let x := silu self x in
  rret x.

Record EEGTransformer : Type := {
  input_embedding : tensor -> tensor;
  pos_encoding : PositionalEncoding;
  encoder : list TransformerBlock;
  convnet_forward : tensor -> Rand tensor;
  fc : tensor -> tensor
}.

(** [for layer in self.encoder: x = layer(x)]. *)
Fixpoint encoder_forward (layers : list TransformerBlock) (x : tensor) : Rand tensor :=
  match layers with
  | [] => rret x
  | layer :: rest => x' <~ TransformerBlock_forward layer x ;; encoder_forward rest x'
  end.

Definition EEGTransformer_forward (self : EEGTransformer) (x : tensor) : Rand tensor :=
  let x := unsqueeze_1 x in
  x <~ convnet_forward self x ;;
  let x := transpose12 x in
  x <~ encoder_forward (encoder self) x ;;
  let x := mean_1 x in
  let x := fc self x in
  rret x.

(** The block as the specification describes it: both dropout results
    discarded, the first normalization applied to [x + attn_output]. *)
Definition TransformerBlock_dropout_free (self : TransformerBlock) (x : tensor) : tensor :=
  let attn_output := self_attn self x in
  let y := norm1 self (add x attn_output) in
  let ff_output := linear2 self (linear1 self y) in
  silu self (norm2 self (add y ff_output)).

(** The same network with other parameters on the two unused modules. *)
Definition with_embedding (self : EEGTransformer)
           (input_embedding' : tensor -> tensor) (pos_encoding' : PositionalEncoding)
  : EEGTransformer :=
  {| input_embedding := input_embedding';
     pos_encoding := pos_encoding';
     encoder := encoder self;
     convnet_forward := convnet_forward self;
     fc := fc self |}.


(** C7.  [EEGTransformer.forward] never calls the positional encoder or the
    linear input embedding: replacing both modules by any others leaves the
    result of [forward] unchanged on every input and every generator state,
    and that result is the pipeline convnet, transpose, encoder blocks,
    mean over axis 1, classification head applied to the raw input. *)
Theorem EEGTransformer_forward_ignores_embedding
        (self : EEGTransformer) (input_embedding' : tensor -> tensor)
        (pos_encoding' : PositionalEncoding) (x : tensor) (t : T) :
  EEGTransformer_forward (with_embedding self input_embedding' pos_encoding') x t
  = EEGTransformer_forward self x t /\
  EEGTransformer_forward self x t
  = (let (x1, t1) := convnet_forward self (unsqueeze_1 x) t in
     let (x2, t2) := encoder_forward (encoder self) (transpose12 x1) t1 in
     (fc self (mean_1 x2), t2)).
Proof.
  split; [reflexivity|].
  unfold EEGTransformer_forward, rnd_bind, rret.
  destruct (convnet_forward self (unsqueeze_1 x) t) as [x1 t1].
  destruct (encoder_forward (encoder self) (transpose12 x1) t1) as [x2 t2].
  reflexivity.
Qed.

(** *** The encoder stack and the generator *)

(** What a block computes outside training mode. *)
Definition TransformerBlock_eval (self : TransformerBlock) (x : tensor) : tensor :=
  let a := self_attn self x in
  let y := norm1 self (add (add x a) a) in
  silu self (norm2 self (add y (linear2 self (linear1 self y)))).

Lemma encoder_forward_app (l1 l2 : list TransformerBlock) (x : tensor) (t : T) :
  encoder_forward (l1 ++ l2) x t =
  (let (x', t') := encoder_forward l1 x t in encoder_forward l2 x' t').
Proof.
  revert x t. induction l1 as [|b rest IH]; intros x t; [reflexivity|].
  cbn [app encoder_forward]. unfold rnd_bind.
  destruct (TransformerBlock_forward b x t) as [x1 t1]. apply IH.
Qed.

(** X13.  Outside training mode the encoder stack is a pure function of its
    input: it draws nothing, returns the generator as it received it, and
    its result is the blocks applied one after the other. *)
Theorem encoder_forward_eval (layers : list TransformerBlock) (x : tensor) (t : T) :
  Forall (fun layer => training layer = false) layers ->
  encoder_forward layers x t
  = (fold_left (fun x layer => TransformerBlock_eval layer x) layers x, t).
Proof.
  intros H. revert x t. induction H as [|b rest Hb _ IH]; intros x t; [reflexivity|].
  cbn [encoder_forward fold_left]. unfold rnd_bind.
  replace (TransformerBlock_forward b x t) with (TransformerBlock_eval b x, t).
  - apply IH.
  - unfold TransformerBlock_forward, Dropout_forward, rnd_bind, rret.
    rewrite Hb. reflexivity.
Qed.

(** X14.  In training mode every block draws exactly two dropout masks: after a
    stack of [n] blocks the generator has advanced by [2 * n] draws,
    whatever the input. *)
Theorem encoder_forward_training_draws (layers : list TransformerBlock) (x : tensor) (t : T) :
  Forall (fun layer => training layer = true) layers ->
  snd (encoder_forward layers x t)
  = Nat.iter (2 * length layers) (fun t' => snd (sample_mask t')) t.
Proof.
  intros H. revert x t. induction H as [|b rest Hb _ IH]; intros x t; [reflexivity|].
  cbn [encoder_forward]. unfold rnd_bind.
  destruct (TransformerBlock_forward b x t) as [x1 t1] eqn:Eb.
  rewrite IH.
  assert (Ht1 : t1 = snd (sample_mask (snd (sample_mask t)))).
  { unfold TransformerBlock_forward, Dropout_forward, rnd_bind, rret in Eb.
    rewrite Hb in Eb. destruct (sample_mask t) as [m1 t']. cbn [snd].
    destruct (sample_mask t') as [m2 t'']. inversion Eb. reflexivity. }
  rewrite Ht1. cbn [length].
  replace (2 * S (length rest)) with (2 * length rest + 2) by lia.
  rewrite Nat.iter_add. reflexivity.
Qed.

End Forward.

(** ** Shapes through [forward]

    The shape rules of the layers of the encoder and of the head, for
    non-empty tensors: [nn.Linear] and [nn.LayerNorm] act on the last axis,
    [nn.MultiheadAttention] (sequence-first) keeps the shape of a query whose
    last axis is [embed_dim]; the convolutional layers are as in
    [layer_shape]. *)

Definition module_shape (m : torch_module) (s : shape) : result shape :=
  match m with
  | Linear i o =>
      match rev s with
      | d :: r => if d =? i then Ok (rev (o :: r)) else Raise RuntimeError
      | [] => Raise RuntimeError
      end
  | LayerNorm n =>
      match rev s with
      | d :: _ => if d =? n then Ok s else Raise RuntimeError
      | [] => Raise RuntimeError
      end
  | MultiheadAttention e _ =>
      match s with
      | [_; _; d] => if d =? e then Ok s else Raise RuntimeError
      | [_; d] => if d =? e then Ok s else Raise RuntimeError
      | _ => Raise RuntimeError
      end
  | _ => layer_shape m s
  end.

Fixpoint Sequential_forward_shape (layers : list torch_module) (s : shape)
  : result shape :=
  match layers with
  | [] => Ok s
  | m :: rest => s' <- module_shape m s ;; Sequential_forward_shape rest s'
  end.

(** [TransformerBlock.forward], on shapes. *)
Definition TransformerBlock_forward_shape (self : TransformerBlock_modules) (x : shape)
  : result shape :=
  attn_output <- module_shape (m_self_attn self) x ;;
  d <- module_shape (m_dropout self) attn_output ;;
  x <- broadcast x d ;;
  s <- broadcast x attn_output ;;
  x <- module_shape (m_norm1 self) s ;;
  ff_output <- module_shape (m_linear1 self) x ;;
  ff_output <- module_shape (m_linear2 self) ff_output ;;
  d <- module_shape (m_dropout self) ff_output ;;
  x <- broadcast x d ;;
  x <- module_shape (m_norm2 self) x ;;
  module_shape (m_silu self) x.

Fixpoint encoder_forward_shape (layers : list TransformerBlock_modules) (x : shape)
  : result shape :=
  match layers with
  | [] => Ok x
  | layer :: rest =>
      x' <- TransformerBlock_forward_shape layer x ;; encoder_forward_shape rest x'
  end.

(** [torch.mean(x, dim=1)]. *)
Definition mean_dim_1 (s : shape) : result shape :=
  match s with
  | n :: _ :: rest => Ok (n :: rest)
  | _ => Raise IndexError
  end.

(** [EEGTransformer.forward], on shapes. *)
Definition EEGTransformer_forward_shape (self : EEGTransformer_modules) (x : shape)
  : result shape :=
  let x := unsqueeze 1 x in
  x <- Sequential_forward_shape (m_convnet self) x ;;
  x <- transpose_1_2 x ;;
  x <- encoder_forward_shape (m_encoder self) x ;;
  x <- mean_dim_1 x ;;
  Sequential_forward_shape (m_fc self) x.

(** [PositionalEncoding.forward], on shapes:
    [x + self.pos_encoding[:, :x.size(1)]]. *)
Definition PositionalEncoding_forward_shape (pos_encoding x : shape) : result shape :=
  match x, pos_encoding with
  | _ :: size_1 :: _, [one; c; e] => broadcast x [one; Nat.min size_1 c; e]
  | _, _ => Raise IndexError
  end.

(** *** What the constructors build *)

Lemma new_Ok (torch_new : torch_module -> result unit) (m m' : torch_module) :
  new torch_new m = Ok m' -> m' = m.
Proof.
  unfold new, rbind. destruct (torch_new m); intros H; inversion H. reflexivity.
Qed.

Lemma new_all_Ok (torch_new : torch_module -> result unit) (ms ms' : list torch_module) :
  new_all torch_new ms = Ok ms' -> ms' = ms.
Proof.
  revert ms'. induction ms as [|m rest IH]; intros ms' H; simpl in H.
  - inversion H. reflexivity.
  - unfold rbind in H.
    destruct (new torch_new m) as [m1|] eqn:E1; [|discriminate].
    destruct (new_all torch_new rest) as [rest1|] eqn:E2; [|discriminate].
    inversion H. apply new_Ok in E1. rewrite E1, (IH rest1 eq_refl). reflexivity.
Qed.

(** The modules of one block. *)
Definition block_modules (input_embedding_size num_heads hidden_size : nat)
  : TransformerBlock_modules :=
  {| m_self_attn := MultiheadAttention input_embedding_size num_heads;
     m_norm1 := LayerNorm input_embedding_size;
     m_linear1 := Linear input_embedding_size hidden_size;
     m_linear2 := Linear hidden_size input_embedding_size;
     m_norm2 := LayerNorm input_embedding_size;
     m_dropout := Dropout;
     m_silu := SiLU |}.

Lemma TransformerBlock_init_Ok (torch_new : torch_module -> result unit)
      (E heads hidden : nat) (blk : TransformerBlock_modules) :
  TransformerBlock_init torch_new E heads hidden = Ok blk ->
  blk = block_modules E heads hidden.
Proof.
  unfold TransformerBlock_init, rbind. intros H.
  repeat match type of H with
         | match new ?tn ?m with _ => _ end = _ =>
             let E := fresh "E" in
             destruct (new tn m) eqn:E; [apply new_Ok in E; subst|discriminate]
         end.
  inversion H. reflexivity.
Qed.

Lemma encoder_init_Ok (torch_new : torch_module -> result unit)
      (num_layers E heads hidden : nat) (layers : list TransformerBlock_modules) :
  encoder_init torch_new num_layers E heads hidden = Ok layers ->
  layers = repeat (block_modules E heads hidden) num_layers.
Proof.
  revert layers. induction num_layers as [|k IH]; intros layers H; simpl in H.
  - inversion H. reflexivity.
  - unfold rbind in H.
    destruct (TransformerBlock_init torch_new E heads hidden) as [blk|] eqn:E1;
      [|discriminate].
    destruct (encoder_init torch_new k E heads hidden) as [rest|] eqn:E2;
      [|discriminate].
    inversion H. apply TransformerBlock_init_Ok in E1.
    rewrite E1, (IH rest eq_refl). reflexivity.
Qed.

Lemma EEGTransformer_init_Ok (torch_new : torch_module -> result unit)
      (num_layers num_channels num_heads window_size E hidden_size num_classes : nat)
      (self : EEGTransformer_modules) :
  EEGTransformer_init torch_new num_layers num_channels num_heads window_size
                      E hidden_size num_classes = Ok self ->
  m_encoder self = repeat (block_modules E num_heads hidden_size) num_layers /\
  m_convnet self = convnet E /\
  m_fc self = [LayerNorm E; Linear E num_classes].
Proof.
  unfold EEGTransformer_init. intros H. unfold rbind at 1 in H.
  destruct (new torch_new (Linear window_size E)); [|discriminate].
  unfold rbind at 1 in H.
  destruct (PositionalEncoding_init E num_channels); [|discriminate].
  unfold rbind at 1 in H.
  destruct (encoder_init torch_new num_layers E num_heads hidden_size) eqn:E1;
    [|discriminate].
  unfold rbind at 1 in H.
  destruct (new_all torch_new (convnet E)) eqn:E2; [|discriminate].
  unfold rbind at 1 in H.
  destruct (new_all torch_new [LayerNorm E; Linear E num_classes]) eqn:E3;
    [|discriminate].
  inversion H. cbn [m_encoder m_convnet m_fc].
  apply encoder_init_Ok in E1. apply new_all_Ok in E2, E3. subst. auto.
Qed.

(** *** Shapes of the layers *)

Lemma Sequential_forward_shape_cons
      (m : torch_module) (rest : list torch_module) (s : shape) :
  Sequential_forward_shape (m :: rest) s
  = rbind (module_shape m s) (Sequential_forward_shape rest).
Proof. reflexivity. Qed.

Lemma Conv2d_shape (cin cout kh kw sh sw n h w : nat) :
  0 < cout ->
  module_shape (Conv2d cin cout (kh, kw) (sh, sw)) [n; cin; h; w] =
  if (kh <=? h) && (kw <=? w)
  then Ok [n; cout; window_count h kh sh; window_count w kw sw]
  else Raise RuntimeError.
Proof.
  intros Hout. cbn [module_shape layer_shape]. rewrite Nat.eqb_refl.
  destruct (Nat.ltb_spec 0 cout); [reflexivity|lia].
Qed.

Lemma Conv2d_no_output_channel (cin kh kw sh sw : nat) (s : shape) :
  module_shape (Conv2d cin 0 (kh, kw) (sh, sw)) s = Raise RuntimeError.
Proof.
  cbn [module_shape layer_shape].
  destruct s as [|n [|c [|h [|w [|? ?]]]]]; try reflexivity.
  rewrite andb_false_r. reflexivity.
Qed.

Lemma BatchNorm2d_shape (f n h w : nat) :
  module_shape (BatchNorm2d f) [n; f; h; w] = Ok [n; f; h; w].
Proof. cbn [module_shape layer_shape]. rewrite Nat.eqb_refl. reflexivity. Qed.

Ltac split_leb :=
  repeat match goal with
         | |- context [?a <=? ?b] => destruct (Nat.leb_spec a b); cbn [andb rbind]
         end.

Ltac shape_step :=
  rewrite Sequential_forward_shape_cons;
  first [rewrite Conv2d_shape by lia | rewrite BatchNorm2d_shape
         | cbn [module_shape layer_shape]];
  unfold window_count; rewrite ?Nat.div_1_r;
  split_leb; cbn [andb rbind]; try lia; try reflexivity.

(** The convolutional stack on windows of any height [c] and width [T]. *)
Lemma convnet_shape_general (N c T E : nat) :
  0 < E ->
  Sequential_forward_shape (convnet E) [N; 1; c; T] =
  if (22 <=? c) && (49 <=? T)
  then Ok [N; E; (c - 21) * ((T - 49) / 15 + 1)]
  else Raise RuntimeError.
Proof.
  intros HE. unfold convnet. do 10 shape_step.
  cbn [Sequential_forward_shape firstn skipn app fold_right]. do 4 f_equal.
  replace (c - 1 + 1 - 22 + 1 - 1 + 1 - 1 + 1) with (c - 21) by lia.
  replace (T - 20 + 1 - 1 + 1 - 30) with (T - 49) by lia. lia.
Qed.

(** Without an output channel the last convolution raises, whatever
    reaches it. *)
Lemma Sequential_no_output_channel
      (before after : list torch_module) (cin kh kw sh sw : nat) (s : shape) :
  exists e,
    Sequential_forward_shape (before ++ Conv2d cin 0 (kh, kw) (sh, sw) :: after) s
    = Raise e.
Proof.
  revert s. induction before as [|m rest IH]; intros s.
  - cbn [app]. rewrite Sequential_forward_shape_cons, Conv2d_no_output_channel.
    exists RuntimeError. reflexivity.
  - cbn [app]. rewrite Sequential_forward_shape_cons.
    destruct (module_shape m s) as [s'|e]; cbn [rbind]; [apply IH|].
    exists e. reflexivity.
Qed.

Lemma convnet_raises_on_short_window (N c T E : nat) :
  c < 22 \/ T < 49 ->
  exists e, Sequential_forward_shape (convnet E) [N; 1; c; T] = Raise e.
Proof.
  intros Hbad. destruct E as [|E].
  - exact (Sequential_no_output_channel
             [Conv2d 1 40 (1, 20) (1, 1); BatchNorm2d 40; SiLU;
              Conv2d 40 40 (22, 1) (1, 1); BatchNorm2d 40; SiLU;
              AvgPool2d (1, 30) (1, 15); Dropout]
             [Flatten 2] 40 1 1 1 1 [N; 1; c; T]).
  - rewrite convnet_shape_general by lia. exists RuntimeError.
    destruct (Nat.leb_spec 22 c); destruct (Nat.leb_spec 49 T);
      cbn [andb]; try reflexivity; lia.
Qed.

Lemma broadcast_rev_same (s : shape) : broadcast_rev s s = Ok s.
Proof.
  induction s as [|x rest IH]; [reflexivity|].
  cbn [broadcast_rev]. rewrite Nat.eqb_refl, IH. reflexivity.
Qed.

Lemma broadcast_same (s : shape) : broadcast s s = Ok s.
Proof.
  unfold broadcast. rewrite broadcast_rev_same. cbn [rbind].
  rewrite rev_involutive. reflexivity.
Qed.

Lemma block_shape_preserved (E heads hidden a b : nat) :
  TransformerBlock_forward_shape (block_modules E heads hidden) [a; b; E]
  = Ok [a; b; E].
Proof.
  unfold TransformerBlock_forward_shape, block_modules.
  cbn [m_self_attn m_norm1 m_linear1 m_linear2 m_norm2 m_dropout m_silu
       module_shape layer_shape rev app].
  repeat (first [rewrite broadcast_same | rewrite Nat.eqb_refl];
          cbn [rbind rev app]).
  reflexivity.
Qed.

Lemma block_shape_wrong_width (E heads hidden a b d : nat) :
  d <> E ->
  TransformerBlock_forward_shape (block_modules E heads hidden) [a; b; d]
  = Raise RuntimeError.
Proof.
  intros Hd. unfold TransformerBlock_forward_shape, block_modules.
  cbn [m_self_attn module_shape].
  destruct (Nat.eqb_spec d E) as [->|_]; [contradiction|reflexivity].
Qed.

Lemma encoder_shape_preserved (E heads hidden a b n : nat) :
  encoder_forward_shape (repeat (block_modules E heads hidden) n) [a; b; E]
  = Ok [a; b; E].
Proof.
  induction n as [|n IH]; [reflexivity|].
  cbn [repeat encoder_forward_shape]. rewrite block_shape_preserved.
  cbn [rbind]. exact IH.
Qed.

(** *** Properties of the shapes through [forward] *)

(** X10.  The encoder stack built by the constructor keeps the shape of every
    input of shape (a, b, [input_embedding_size]), for every number of
    layers and every [hidden_size]; with at least one layer it raises on an
    input (a, b, d) of another width [d]. *)
Theorem encoder_forward_shape_preserved
        (torch_new : torch_module -> result unit)
        (num_layers input_embedding_size num_heads hidden_size : nat)
        (layers : list TransformerBlock_modules) (a b : nat) :
  encoder_init torch_new num_layers input_embedding_size num_heads hidden_size
  = Ok layers ->
  encoder_forward_shape layers [a; b; input_embedding_size]
  = Ok [a; b; input_embedding_size] /\
  (forall d, d <> input_embedding_size -> 0 < num_layers ->
             exists e, encoder_forward_shape layers [a; b; d] = Raise e).
Proof.
  intros H. apply encoder_init_Ok in H. subst layers. split.
  - apply encoder_shape_preserved.
  - intros d Hd Hn. destruct num_layers as [|n]; [lia|].
    cbn [repeat encoder_forward_shape].
    rewrite block_shape_wrong_width by exact Hd. exists RuntimeError. reflexivity.
Qed.

(** X11.  For a model constructed with an embedding width of at least 1,
    [forward] maps a non-empty batch of shape (N, c, T) to logits of shape
    (N, num_classes) whenever the windows have at least 22 channels and at
    least 49 samples, whatever the number of layers and [hidden_size]; with
    fewer than 22 channels or fewer than 49 samples the call raises in the
    convolutional stack.  More than 22 channels are accepted: the spatial
    convolution then leaves [c - 21] rows, which the flattening folds into
    the sequence axis. *)
Theorem EEGTransformer_forward_shape_logits
        (torch_new : torch_module -> result unit)
        (num_layers num_channels num_heads window_size
         input_embedding_size hidden_size num_classes : nat)
        (self : EEGTransformer_modules) (N c T : nat) :
  EEGTransformer_init torch_new num_layers num_channels num_heads window_size
                      input_embedding_size hidden_size num_classes = Ok self ->
  (0 < N -> 0 < input_embedding_size -> 22 <= c -> 49 <= T ->
   EEGTransformer_forward_shape self [N; c; T] = Ok [N; num_classes]) /\
  (c < 22 \/ T < 49 ->
   exists e, EEGTransformer_forward_shape self [N; c; T] = Raise e).
Proof.
  intros Hinit. apply EEGTransformer_init_Ok in Hinit.
  destruct Hinit as [Henc [Hconv Hfc]].
  unfold EEGTransformer_forward_shape. rewrite Henc, Hconv, Hfc.
  cbn [unsqueeze firstn skipn app].
  split.
  - intros _ HE Hc HT. rewrite convnet_shape_general by exact HE.
    destruct (Nat.leb_spec 22 c); [|lia]. destruct (Nat.leb_spec 49 T); [|lia].
    cbn [andb rbind transpose_1_2]. rewrite encoder_shape_preserved.
    cbn [rbind mean_dim_1 Sequential_forward_shape module_shape rev app].
    rewrite Nat.eqb_refl. cbn [rbind rev app]. rewrite Nat.eqb_refl. reflexivity.
  - intros Hbad.
    destruct (convnet_raises_on_short_window N input_embedding_size Hbad) as [e He].
    rewrite He. exists e. reflexivity.
Qed.

(** X12.  A positional encoder constructed for [num_channels] positions keeps the
    shape of an input (N, L, E) with at most [num_channels] positions (or
    when it has a single position, which broadcasts); on a longer input it
    raises. *)
Theorem PositionalEncoding_forward_shape_positions
        (input_embedding_size num_channels : nat) (pos_encoding : shape) (N L : nat) :
  PositionalEncoding_init input_embedding_size num_channels = Ok pos_encoding ->
  (L <= num_channels \/ num_channels = 1 ->
   PositionalEncoding_forward_shape pos_encoding [N; L; input_embedding_size]
   = Ok [N; L; input_embedding_size]) /\
  (num_channels < L -> 1 < num_channels ->
   PositionalEncoding_forward_shape pos_encoding [N; L; input_embedding_size]
   = Raise RuntimeError).
Proof.
  intros Hinit. rewrite PositionalEncoding_init_parity in Hinit.
  destruct (Nat.even input_embedding_size || (input_embedding_size =? 1));
    [|discriminate].
  inversion Hinit; subst pos_encoding. clear Hinit.
  unfold PositionalEncoding_forward_shape, broadcast.
  cbn [rev app broadcast_rev]. rewrite Nat.eqb_refl. cbn [orb].
  split.
  - intros Hfit.
    assert (Hmid : (L =? Nat.min L num_channels) || (Nat.min L num_channels =? 1) = true).
    { apply orb_true_iff. destruct Hfit as [Hle| ->].
      - left. apply Nat.eqb_eq. lia.
      - destruct (Nat.le_gt_cases L 1).
        + left. apply Nat.eqb_eq. lia.
        + right. apply Nat.eqb_eq. lia. }
    rewrite Hmid, orb_true_r. reflexivity.
  - intros Hlong Hc.
    destruct (Nat.eqb_spec L (Nat.min L num_channels)) as [H|_]; [lia|].
    destruct (Nat.eqb_spec (Nat.min L num_channels) 1) as [H|_]; [lia|].
    cbn [orb]. destruct (Nat.eqb_spec L 1) as [H|_]; [lia|]. reflexivity.
Qed.

End Net.

(** ** Worked runs of the network model *)

(** C10, evaluated.  With [input_embedding_size = 1] the positional encoder
    is constructed, and so is the model when the torch layers accept their
    arguments. *)
Lemma PositionalEncoding_size_1_constructed :
  Net.PositionalEncoding_init 1 22 = Ok [1; 22; 1] /\
  exists m, Net.EEGTransformer_init (fun _ => Ok tt) 2 22 1 1125 1 16 4 = Ok m.
Proof. split; [reflexivity|]. eexists. reflexivity. Qed.

Lemma featurizer_shape_deterministic_witness :
  0 < 40 /\
  Net.Sequential_shape (Net.convnet 40) [8; 1; 22; 1125] = Ok [8; 40; 72] /\
  Net.featurizer_shape 40 [8; 1; 22; 1125] = Ok [8; 72; 40] /\
  Net.window_count (Net.window_count 1125 20 1) 30 15 = 72.
Proof.
  assert (H : 0 < 40) by lia.
  split; [exact H|].
  exact (@Net.featurizer_shape_deterministic 8 40 H).
Defined.

Lemma PositionalEncoding_init_odd_size_witness :
  Nat.odd 3 = true /\ 3 <= 3 /\
  exists e, Net.EEGTransformer_init (fun _ => Ok tt) 2 22 4 1125 3 16 4 = Raise e.
Proof.
  assert (H1 : Nat.odd 3 = true) by reflexivity.
  assert (H2 : 3 <= 3) by lia.
  split; [exact H1|]. split; [exact H2|].
  exact (proj2 (proj2 (Net.PositionalEncoding_init_odd_size (fun _ => Ok tt) 3 22))
               H1 H2 2 4 1125 16 4).
Defined.

(** A block on scalars in which every layer is the identity.  A dropout
    mask is the factor an element is multiplied by: 0 when it is dropped,
    [1 / (1 - p) = 2] when it is kept with [p = 0.5].  Masks are read from a
    tape. *)
Definition next_mask (t : list Z) : Z * list Z :=
  match t with
  | [] => (0%Z, [])
  | m :: rest => (m, rest)
  end.

Definition scalar_block (training : bool) : Net.TransformerBlock Z :=
  {| Net.self_attn := fun x => x;
     Net.norm1 := fun x => x;
     Net.linear1 := fun x => x;
     Net.linear2 := fun x => x;
     Net.norm2 := fun x => x;
     Net.silu := fun x => x;
     Net.training := training |}.




(** The data flow of a block in training mode, read off a symbolic run:
    tensors are expressions and every layer builds an expression. *)
Inductive expr : Type :=
| Input
| Plus (a b : expr)
| Attn (a : expr)
| Norm1 (a : expr)
| Linear1 (a : expr)
| Linear2 (a : expr)
| Norm2 (a : expr)
| Silu (a : expr)
| Drop (mask : nat) (a : expr).

Definition symbolic_block : Net.TransformerBlock expr :=
  {| Net.self_attn := Attn;
     Net.norm1 := Norm1;
     Net.linear1 := Linear1;
     Net.linear2 := Linear2;
     Net.norm2 := Norm2;
     Net.silu := Silu;
     Net.training := true |}.

Lemma TransformerBlock_forward_trace :
  fst (Net.TransformerBlock_forward Plus (fun n : nat => (n, S n)) Drop
                                    symbolic_block Input 0)
  = (let y := Norm1 (Plus (Plus Input (Drop 0 (Attn Input))) (Attn Input)) in
     Silu (Norm2 (Plus y (Drop 1 (Linear2 (Linear1 y)))))) /\
  Net.TransformerBlock_dropout_free Plus symbolic_block Input
  = (let y := Norm1 (Plus Input (Attn Input)) in
     Silu (Norm2 (Plus y (Linear2 (Linear1 y))))).
Proof. split; reflexivity. Qed.

(** * Splitting the dataset: [split_dataset] of [src/utils.py]

    The windowed dataset and its [split] method belong to braindecode; the
    model starts from the dictionary [data.split('session')] returns, an
    association list from session names to datasets.  A dataset is the list
    of its items.  [int(len(full_train_set) * training_set_size)] is a
    floating-point product; the model takes it as a function of the length,
    a parameter, for a fraction that is not negative. *)

From Stdlib Require String.
Import String.StringSyntax.
Delimit Scope string_scope with string.

Module Split.

Inductive exception : Type :=
| KeyError (key : String.string)
| Other (e : error).

Inductive outcome (A : Type) : Type :=
| Return (a : A)
| Throw (e : exception).

Arguments Return {A} a.
Arguments Throw {A} e.

Definition obind {A B : Type} (r : outcome A) (k : A -> outcome B) : outcome B :=
  match r with
  | Return a => k a
  | Throw e => Throw e
  end.

Notation "x <- r ;; k" := (obind r (fun x => k))
  (at level 61, r at next level, right associativity).

(** [range(a, b)]. *)
Definition range (a b : nat) : list nat := seq a (b - a).

Section SplitDataset.

Variable item : Type.

Definition dataset : Type := list item.

(** [d[key]] on a dictionary. *)
Fixpoint dict_get (d : list (String.string * dataset)) (key : String.string)
  : outcome dataset :=
  match d with
  | [] => Throw (KeyError key)
  | (k, v) :: rest => if String.eqb k key then Return v else dict_get rest key
  end.

(** [dataset[i]]. *)
Definition dataset_getitem (d : dataset) (i : nat) : outcome item :=
  match nth_error d i with
  | Some x => Return x
  | None => Throw (Other IndexError)
  end.

(** [torch.utils.data.Subset]: a dataset seen through a list of indices,
    which the constructor does not check. *)
Record Subset : Type := {
  subset_dataset : dataset;
  indices : list nat
}.

(** [len(subset)]. *)
Definition Subset_len (s : Subset) : nat := length (indices s).

(** [subset[idx]]: [self.dataset[self.indices[idx]]]. *)
Definition Subset_getitem (s : Subset) (idx : nat) : outcome item :=
  match nth_error (indices s) idx with
  | Some i => dataset_getitem (subset_dataset s) i
  | None => Throw (Other IndexError)
  end.

(** [int(n * training_set_size)] for the fraction the call is given. *)
Variable scaled : nat -> nat.

Definition split_dataset (data : String.string -> list (String.string * dataset))
  : outcome (dataset * Subset * Subset * dataset) :=
  let split_data := data "session"%string in
  full_train_set <- dict_get split_data "session_T"%string ;;
  let split_index := scaled (length full_train_set) in
  let train_set :=
    {| subset_dataset := full_train_set; indices := range 0 split_index |} in
  let valid_set :=
    {| subset_dataset := full_train_set; indices := range split_index 2592 |} in
  eval_set <- dict_get split_data "session_E"%string ;;
  Return (full_train_set, train_set, valid_set, eval_set).

(** The items of a subset in order, as iterating over it yields them. *)
Fixpoint Subset_items_from (s : Subset) (idx n : nat) : outcome (list item) :=
  match n with
  | 0 => Return []
  | S k =>
      x <- Subset_getitem s idx ;;
      rest <- Subset_items_from s (S idx) k ;;
      Return (x :: rest)
  end.

Definition Subset_items (s : Subset) : outcome (list item) :=
  Subset_items_from s 0 (Subset_len s).

(** ** Facts about [split_dataset] *)

Lemma dict_get_In (d : list (String.string * dataset)) (key : String.string) :
  (exists v, dict_get d key = Return v) <-> In key (map fst d).
Proof.
  induction d as [|[k v] rest IH]; simpl.
  - split; [intros [v H]; discriminate|contradiction].
  - destruct (String.eqb_spec k key) as [->|Hne].
    + split; [intros _; left; reflexivity|intros _; eauto].
    + rewrite IH. split; [intros H; right; exact H|].
      intros [H|H]; [contradiction|exact H].
Qed.

Lemma split_dataset_Return
      (data : String.string -> list (String.string * dataset))
      (full_train_set eval_set : dataset) (train_set valid_set : Subset) :
  split_dataset data = Return (full_train_set, train_set, valid_set, eval_set) ->
  dict_get (data "session"%string) "session_T"%string = Return full_train_set /\
  dict_get (data "session"%string) "session_E"%string = Return eval_set /\
  train_set = {| subset_dataset := full_train_set;
                 indices := range 0 (scaled (length full_train_set)) |} /\
  valid_set = {| subset_dataset := full_train_set;
                 indices := range (scaled (length full_train_set)) 2592 |}.
Proof.
  unfold split_dataset, obind. intros H.
  destruct (dict_get (data "session"%string) "session_T"%string) as [full|];
    [|discriminate].
  destruct (dict_get (data "session"%string) "session_E"%string) as [ev|];
    [|discriminate].
  inversion H; subst. auto.
Qed.

Lemma dict_get_absent (d : list (String.string * dataset)) (key : String.string) :
  ~ In key (map fst d) -> dict_get d key = Throw (KeyError key).
Proof.
  induction d as [|[k v] rest IH]; simpl; intros Hno; [reflexivity|].
  destruct (String.eqb_spec k key) as [->|Hne].
  - exfalso. apply Hno. left. reflexivity.
  - apply IH. intros Hin. apply Hno. right. exact Hin.
Qed.

(** X15.  [split_dataset] returns exactly when the split has both a ['session_T']
    and a ['session_E'] entry; otherwise the dictionary lookup raises
    [KeyError]: for ['session_T'] when that entry is missing, for
    ['session_E'] when only that one is. *)
Theorem split_dataset_needs_both_sessions
        (data : String.string -> list (String.string * dataset)) :
  ((exists r, split_dataset data = Return r) <->
   In "session_T"%string (map fst (data "session"%string)) /\
   In "session_E"%string (map fst (data "session"%string))) /\
  (~ In "session_T"%string (map fst (data "session"%string)) ->
   split_dataset data = Throw (KeyError "session_T"%string)) /\
  (In "session_T"%string (map fst (data "session"%string)) ->
   ~ In "session_E"%string (map fst (data "session"%string)) ->
   split_dataset data = Throw (KeyError "session_E"%string)).
Proof.
  split; [|split].
  - rewrite <- !dict_get_In. unfold split_dataset, obind. split.
    + intros [r H].
      destruct (dict_get (data "session"%string) "session_T"%string) as [full|];
        [|discriminate].
      destruct (dict_get (data "session"%string) "session_E"%string) as [ev|];
        [|discriminate].
      eauto.
    + intros [[full ->] [ev ->]]. eauto.
  - intros HT. unfold split_dataset, obind.
    rewrite (dict_get_absent _ _ HT). reflexivity.
  - intros HT HE. apply dict_get_In in HT. destruct HT as [full HT].
    unfold split_dataset, obind.
    rewrite HT, (dict_get_absent _ _ HE). reflexivity.
Qed.



Lemma Subset_getitem_range (d : dataset) (a b k : nat) :
  Subset_getitem {| subset_dataset := d; indices := range a b |} k =
  if k <? b - a then dataset_getitem d (a + k) else Throw (Other IndexError).
Proof.
  unfold Subset_getitem, range. cbn [indices subset_dataset].
  rewrite nth_error_seq. destruct (k <? b - a); reflexivity.
Qed.

(** X17.  When the training session has fewer than 2592 items, the validation
    subset is longer than the data behind it: its first
    [len - split_index] positions read the items after the split, and every
    later position, still below [len(valid_set)], raises [IndexError]. *)
Theorem split_dataset_short_session
        (data : String.string -> list (String.string * dataset))
        (full_train_set eval_set : dataset) (train_set valid_set : Subset) :
  split_dataset data = Return (full_train_set, train_set, valid_set, eval_set) ->
  length full_train_set < 2592 ->
  scaled (length full_train_set) <= length full_train_set ->
  Subset_len valid_set
  = (length full_train_set - scaled (length full_train_set))
    + (2592 - length full_train_set) /\
  (forall k, k < length full_train_set - scaled (length full_train_set) ->
             exists x,
               Subset_getitem valid_set k = Return x /\
               nth_error full_train_set (scaled (length full_train_set) + k) = Some x) /\
  (forall k, length full_train_set - scaled (length full_train_set) <= k ->
             Subset_getitem valid_set k = Throw (Other IndexError)).
Proof.
  intros H Hshort Hsplit. apply split_dataset_Return in H.
  destruct H as [_ [_ [_ ->]]].
  set (n := length full_train_set) in *. set (s := scaled n) in *.
  split; [|split].
  - unfold Subset_len, range. cbn [indices]. rewrite length_seq. lia.
  - intros k Hk. rewrite Subset_getitem_range.
    destruct (Nat.ltb_spec k (2592 - s)) as [_|Hge]; [|lia].
    unfold dataset_getitem.
    destruct (nth_error full_train_set (s + k)) as [x|] eqn:E; [eauto|].
    apply nth_error_None in E. fold n in E. lia.
  - intros k Hk. rewrite Subset_getitem_range.
    destruct (Nat.ltb_spec k (2592 - s)) as [_|_]; [|reflexivity].
    unfold dataset_getitem.
    destruct (nth_error full_train_set (s + k)) as [x|] eqn:E; [|reflexivity].
    assert (s + k < n) by (apply nth_error_Some; congruence). lia.
Qed.

(** X18.  When the training session has more than 2592 items (and the split index
    is at most 2592), the items from position 2592 on are in neither
    subset. *)
Theorem split_dataset_long_session
        (data : String.string -> list (String.string * dataset))
        (full_train_set eval_set : dataset) (train_set valid_set : Subset) (j : nat) :
  split_dataset data = Return (full_train_set, train_set, valid_set, eval_set) ->
  scaled (length full_train_set) <= 2592 ->
  2592 <= j ->
  ~ In j (indices train_set) /\ ~ In j (indices valid_set).
Proof.
  intros H Hsplit Hj. apply split_dataset_Return in H.
  destruct H as [_ [_ [-> ->]]]. cbn [indices]. unfold range.
  split; intros Hin; apply in_seq in Hin; lia.
Qed.

Lemma Subset_items_from_range (d : dataset) (a b : nat) :
  b <= length d ->
  forall n idx,
    idx + n = b - a ->
    Subset_items_from {| subset_dataset := d; indices := range a b |} idx n
    = Return (firstn n (skipn (a + idx) d)).
Proof.
  intros Hb. induction n as [|n IH]; intros idx Hn; [reflexivity|].
  cbn [Subset_items_from]. rewrite Subset_getitem_range.
  destruct (Nat.ltb_spec idx (b - a)) as [_|Hge]; [|lia].
  unfold dataset_getitem.
  destruct (nth_error d (a + idx)) as [x|] eqn:E.
  - cbn [obind]. rewrite IH by lia. cbn [obind]. f_equal.
    replace (a + S idx) with (S (a + idx)) by lia.
    clear -E. revert E. generalize (a + idx) as i. revert d.
    induction d as [|h t IHd]; intros [|i] E; try discriminate.
    + simpl in E. inversion E. reflexivity.
    + simpl in E. apply IHd in E. exact E.
  - apply nth_error_None in E. lia.
Qed.

(** X19.  With exactly 2592 items in the training session (and a split index
    within it), iterating over the training subset and then over the
    validation subset yields every item of the session once, in order: the
    first [split_index] items are the training items, the rest the
    validation items. *)
Theorem split_dataset_full_session
        (data : String.string -> list (String.string * dataset))
        (full_train_set eval_set : dataset) (train_set valid_set : Subset) :
  split_dataset data = Return (full_train_set, train_set, valid_set, eval_set) ->
  length full_train_set = 2592 ->
  scaled 2592 <= 2592 ->
  exists train_items valid_items,
    Subset_items train_set = Return train_items /\
    Subset_items valid_set = Return valid_items /\
    train_items ++ valid_items = full_train_set /\
    length train_items = scaled 2592.
Proof.
  intros H Hlen Hsplit. apply split_dataset_Return in H.
  destruct H as [_ [_ [-> ->]]]. rewrite Hlen.
  exists (firstn (scaled 2592) full_train_set), (skipn (scaled 2592) full_train_set).
  unfold Subset_items, Subset_len, range. cbn [indices]. rewrite !length_seq.
  split; [|split; [|split]].
  - change (seq 0 (scaled 2592 - 0)) with (range 0 (scaled 2592)).
    rewrite Subset_items_from_range by lia.
    rewrite Nat.sub_0_r. reflexivity.
  - change (seq (scaled 2592) (2592 - scaled 2592)) with (range (scaled 2592) 2592).
    rewrite Subset_items_from_range by lia.
    rewrite Nat.add_0_r. f_equal. apply firstn_all2. rewrite length_skipn. lia.
  - apply firstn_skipn.
  - rewrite length_firstn. lia.
Qed.

End SplitDataset.

End Split.

(** * Worked runs for the further properties *)

(** A batch in which class 0 alone fills the request of 4 windows. *)
Definition class_0_heavy_windows : list (list (list Z)) :=
  [const_window 10; const_window 10; const_window 10; const_window 10;
   const_window 11; const_window 12; const_window 13].

Definition class_0_heavy_labels : list Z := [0; 0; 0; 0; 1; 2; 3]%Z.

Lemma interaug_result_sizes_witness :
  demo_interaug balanced_windows balanced_labels 7 []
  = Ok (map spliced_const [10; 11; 12; 13]%Z, [0; 1; 2; 3]%Z, []) /\
  length (map spliced_const [10; 11; 12; 13]%Z) = 4 * (7 / 4) /\
  length [0; 1; 2; 3]%Z = 4 * (7 / 4) /\
  length (map spliced_const [10; 11; 12; 13]%Z) <= 7 /\
  (7 mod 4 <> 0 -> length (map spliced_const [10; 11; 12; 13]%Z) < 7).
Proof.
  assert (E : demo_interaug balanced_windows balanced_labels 7 []
              = Ok (map spliced_const [10; 11; 12; 13]%Z, [0; 1; 2; 3]%Z, []))
    by (vm_compute; reflexivity).
  split; [exact E|].
  exact (@Augment.interaug_result_sizes
           (list nat) next_tape Z 0%Z balanced_windows balanced_labels 7 [] []
           (map spliced_const [10; 11; 12; 13]%Z) [0; 1; 2; 3]%Z E).
Defined.


Lemma interaug_too_few_labels_raises_witness :
  length balanced_labels < 4 * (8 / 4) /\
  exists e, demo_interaug balanced_windows balanced_labels 8 [3; 1; 4] = Raise e.
Proof.
  assert (H : length balanced_labels < 4 * (8 / 4)) by (simpl; lia).
  split; [exact H|].
  exact (@Augment.interaug_too_few_labels_raises
           (list nat) next_tape Z 0%Z balanced_windows balanced_labels 8 [3; 1; 4] H).
Defined.

Lemma interaug_labels_prefix_witness :
  demo_interaug class_0_heavy_windows class_0_heavy_labels 4 []
  = Ok (map spliced_const [10; 11; 12; 13]%Z, [0; 0; 0; 0]%Z, []) /\
  Permutation (firstn (4 * (4 / 4)) (Augment.grouped_labels class_0_heavy_labels))
              [0; 0; 0; 0]%Z.
Proof.
  assert (E : demo_interaug class_0_heavy_windows class_0_heavy_labels 4 []
              = Ok (map spliced_const [10; 11; 12; 13]%Z, [0; 0; 0; 0]%Z, []))
    by (vm_compute; reflexivity).
  split; [exact E|].
  exact (@Augment.interaug_labels_prefix
           (list nat) next_tape Z 0%Z class_0_heavy_windows class_0_heavy_labels 4 [] []
           (map spliced_const [10; 11; 12; 13]%Z) [0; 0; 0; 0]%Z E).
Defined.

Lemma interaug_labels_all_class_0_witness :
  4 * (4 / 4) <= count_occ Z.eq_dec class_0_heavy_labels 0%Z /\
  demo_interaug class_0_heavy_windows class_0_heavy_labels 4 []
  = Ok (map spliced_const [10; 11; 12; 13]%Z, [0; 0; 0; 0]%Z, []) /\
  Forall (fun l => l = 0%Z) [0; 0; 0; 0]%Z.
Proof.
  assert (H : 4 * (4 / 4) <= count_occ Z.eq_dec class_0_heavy_labels 0%Z)
    by (vm_compute; lia).
  assert (E : demo_interaug class_0_heavy_windows class_0_heavy_labels 4 []
              = Ok (map spliced_const [10; 11; 12; 13]%Z, [0; 0; 0; 0]%Z, []))
    by (vm_compute; reflexivity).
  split; [exact H|]. split; [exact E|].
  exact (@Augment.interaug_labels_all_class_0
           (list nat) next_tape Z 0%Z class_0_heavy_windows class_0_heavy_labels 4 [] []
           (map spliced_const [10; 11; 12; 13]%Z) [0; 0; 0; 0]%Z H E).
Defined.

Lemma interaug_windows_class_balanced_witness :
  demo_interaug_tensors class_0_heavy_windows class_0_heavy_labels 4 []
  = Ok (map spliced_const [10; 11; 12; 13]%Z, [0; 0; 0; 0]%Z, []) /\
  exists cs : list nat,
    Forall2 (fun c w =>
               Augment.built_from_float32 (fun x => x)
                                          class_0_heavy_windows class_0_heavy_labels
                                          (Z.of_nat c) w)
            cs (map spliced_const [10; 11; 12; 13]%Z) /\
    forall c, c < 4 -> count_occ Nat.eq_dec cs c = 4 / 4.
Proof.
  assert (E : demo_interaug_tensors class_0_heavy_windows class_0_heavy_labels 4 []
              = Ok (map spliced_const [10; 11; 12; 13]%Z, [0; 0; 0; 0]%Z, []))
    by (vm_compute; reflexivity).
  split; [exact E|].
  exact (@Augment.interaug_windows_class_balanced
           (list nat) next_tape Z 0%Z (fun x => x)
           class_0_heavy_windows class_0_heavy_labels 4 [] []
           (map spliced_const [10; 11; 12; 13]%Z) [0; 0; 0; 0]%Z E).
Defined.

Lemma interaug_balanced_batch_pairing_witness :
  (forall c, c < 4 -> count_occ Z.eq_dec balanced_labels (Z.of_nat c) = 4 / 4) /\
  demo_interaug_tensors balanced_windows balanced_labels 4 []
  = Ok (map spliced_const [10; 11; 12; 13]%Z, [0; 1; 2; 3]%Z, []) /\
  Forall2 (fun l w =>
             Augment.built_from_float32 (fun x => x)
                                        balanced_windows balanced_labels l w)
          [0; 1; 2; 3]%Z (map spliced_const [10; 11; 12; 13]%Z) /\
  forall c, c < 4 -> count_occ Z.eq_dec [0; 1; 2; 3]%Z (Z.of_nat c) = 4 / 4.
Proof.
  assert (H : forall c, c < 4 ->
                        count_occ Z.eq_dec balanced_labels (Z.of_nat c) = 4 / 4).
  { intros c Hc. destruct c as [|[|[|[|c]]]]; [reflexivity..|lia]. }
  assert (E : demo_interaug_tensors balanced_windows balanced_labels 4 []
              = Ok (map spliced_const [10; 11; 12; 13]%Z, [0; 1; 2; 3]%Z, []))
    by (vm_compute; reflexivity).
  split; [exact H|]. split; [exact E|].
  exact (@Augment.interaug_balanced_batch_pairing
           (list nat) next_tape Z 0%Z (fun x => x)
           balanced_windows balanced_labels 4 [] []
           (map spliced_const [10; 11; 12; 13]%Z) [0; 1; 2; 3]%Z H E).
Defined.

Lemma interaug_batch_size_below_4_witness :
  2 < 4 /\ length three_class_labels <= length three_class_windows /\
  demo_interaug three_class_windows three_class_labels 2 [9] = Ok ([], [], [9]).
Proof.
  assert (H1 : 2 < 4) by lia.
  assert (H2 : length three_class_labels <= length three_class_windows)
    by (simpl; lia).
  split; [exact H1|]. split; [exact H2|].
  exact (@Augment.interaug_batch_size_below_4
           (list nat) next_tape Z 0%Z three_class_windows three_class_labels 2 [9]
           H1 H2).
Defined.

Lemma interaug_returns_witness :
  exists ws ls g',
    demo_interaug class_0_heavy_windows class_0_heavy_labels 4 [2; 7; 1] = Ok (ws, ls, g').
Proof.
  apply (@Augment.interaug_returns
           (list nat) next_tape Z 0%Z class_0_heavy_windows class_0_heavy_labels 4
           [2; 7; 1]).
  - simpl. lia.
  - apply Augment.Forall_shape_ok. vm_compute. reflexivity.
  - unfold class_0_heavy_labels. repeat constructor; lia.
  - intros c Hc. unfold class_0_heavy_labels.
    destruct c as [|[|[|[|c]]]]; simpl; [tauto|tauto|tauto|tauto|lia].
  - simpl. lia.
Defined.

(** The modules of the configuration the specification names: 2 layers, 22
    channels, 4 heads, 1125 samples, width 40, hidden width 16, 4 classes,
    built with layers that accept their arguments. *)
Definition demo_modules : Net.EEGTransformer_modules :=
  {| Net.m_input_embedding := Net.Linear 1125 40;
     Net.m_pos_encoding := [1; 22; 40];
     Net.m_encoder := repeat (Net.block_modules 40 4 16) 2;
     Net.m_convnet := Net.convnet 40;
     Net.m_fc := [Net.LayerNorm 40; Net.Linear 40 4] |}.

Lemma encoder_forward_shape_preserved_witness :
  Net.encoder_init (fun _ => Ok tt) 2 40 4 16
  = Ok (repeat (Net.block_modules 40 4 16) 2) /\
  Net.encoder_forward_shape (repeat (Net.block_modules 40 4 16) 2) [8; 72; 40]
  = Ok [8; 72; 40] /\
  (forall d, d <> 40 -> 0 < 2 ->
             exists e,
               Net.encoder_forward_shape (repeat (Net.block_modules 40 4 16) 2) [8; 72; d]
               = Raise e).
Proof.
  assert (H : Net.encoder_init (fun _ => Ok tt) 2 40 4 16
              = Ok (repeat (Net.block_modules 40 4 16) 2)) by reflexivity.
  split; [exact H|].
  exact (@Net.encoder_forward_shape_preserved
           (fun _ => Ok tt) 2 40 4 16 (repeat (Net.block_modules 40 4 16) 2) 8 72 H).
Defined.

Lemma EEGTransformer_forward_shape_logits_witness :
  Net.EEGTransformer_init (fun _ => Ok tt) 2 22 4 1125 40 16 4 = Ok demo_modules /\
  Net.EEGTransformer_forward_shape demo_modules [8; 22; 1125] = Ok [8; 4] /\
  exists e, Net.EEGTransformer_forward_shape demo_modules [8; 21; 1125] = Raise e.
Proof.
  assert (H : Net.EEGTransformer_init (fun _ => Ok tt) 2 22 4 1125 40 16 4
              = Ok demo_modules) by reflexivity.
  split; [exact H|]. split.
  - apply (proj1 (@Net.EEGTransformer_forward_shape_logits
                    (fun _ => Ok tt) 2 22 4 1125 40 16 4 demo_modules 8 22 1125 H));
      lia.
  - apply (proj2 (@Net.EEGTransformer_forward_shape_logits
                    (fun _ => Ok tt) 2 22 4 1125 40 16 4 demo_modules 8 21 1125 H)).
    left. lia.
Defined.

Lemma PositionalEncoding_forward_shape_positions_witness :
  Net.PositionalEncoding_init 40 22 = Ok [1; 22; 40] /\
  Net.PositionalEncoding_forward_shape [1; 22; 40] [8; 22; 40] = Ok [8; 22; 40] /\
  Net.PositionalEncoding_forward_shape [1; 22; 40] [8; 72; 40] = Raise RuntimeError.
Proof.
  assert (H : Net.PositionalEncoding_init 40 22 = Ok [1; 22; 40]) by reflexivity.
  split; [exact H|]. split.
  - apply (proj1 (@Net.PositionalEncoding_forward_shape_positions
                    40 22 [1; 22; 40] 8 22 H)).
    left. lia.
  - apply (proj2 (@Net.PositionalEncoding_forward_shape_positions
                    40 22 [1; 22; 40] 8 72 H)); lia.
Defined.

Lemma encoder_forward_eval_witness :
  Forall (fun layer => Net.training layer = false)
         [scalar_block false; scalar_block false] /\
  Net.encoder_forward Z.add next_mask Z.mul
                      [scalar_block false; scalar_block false] 1%Z [2; 0]%Z
  = (fold_left (fun x layer => Net.TransformerBlock_eval Z.add layer x)
               [scalar_block false; scalar_block false] 1%Z, [2; 0]%Z).
Proof.
  assert (H : Forall (fun layer => Net.training layer = false)
                     [scalar_block false; scalar_block false])
    by (repeat constructor).
  split; [exact H|].
  exact (@Net.encoder_forward_eval Z Z.add (list Z) Z next_mask Z.mul
           [scalar_block false; scalar_block false] 1%Z [2; 0]%Z H).
Defined.

Lemma encoder_forward_training_draws_witness :
  Forall (fun layer => Net.training layer = true)
         [scalar_block true; scalar_block true] /\
  snd (Net.encoder_forward Z.add next_mask Z.mul
                           [scalar_block true; scalar_block true] 1%Z
                           [2; 0; 2; 2; 0; 0]%Z)
  = Nat.iter (2 * 2) (fun t' => snd (next_mask t')) [2; 0; 2; 2; 0; 0]%Z.
Proof.
  assert (H : Forall (fun layer => Net.training layer = true)
                     [scalar_block true; scalar_block true])
    by (repeat constructor).
  split; [exact H|].
  exact (@Net.encoder_forward_training_draws Z Z.add (list Z) Z next_mask Z.mul
           [scalar_block true; scalar_block true] 1%Z [2; 0; 2; 2; 0; 0]%Z H).
Defined.

(** Sessions of numbered items, split at four fifths of the length. *)
Definition four_fifths (n : nat) : nat := n * 4 / 5.

Definition sessions (n : nat) (_ : String.string) : list (String.string * list nat) :=
  [("session_T"%string, seq 0 n); ("session_E"%string, [7; 8])].

Definition train_of (n : nat) : Split.Subset nat :=
  {| Split.subset_dataset := seq 0 n;
     Split.indices := Split.range 0 (four_fifths n) |}.

Definition valid_of (n : nat) : Split.Subset nat :=
  {| Split.subset_dataset := seq 0 n;
     Split.indices := Split.range (four_fifths n) 2592 |}.

Lemma sessions_split (n : nat) :
  Split.split_dataset four_fifths (sessions n)
  = Split.Return (seq 0 n, train_of n, valid_of n, [7; 8]).
Proof.
  unfold Split.split_dataset, sessions, train_of, valid_of.
  cbn [Split.dict_get String.eqb Ascii.eqb Bool.eqb Split.obind].
  rewrite length_seq. reflexivity.
Qed.

(** A split without the evaluation session. *)
Definition training_session_only (_ : String.string)
  : list (String.string * list nat) :=
  [("session_T"%string, seq 0 10)].

Lemma split_dataset_needs_both_sessions_witness :
  In "session_T"%string (map fst (training_session_only "session"%string)) /\
  ~ In "session_E"%string (map fst (training_session_only "session"%string)) /\
  Split.split_dataset four_fifths training_session_only
  = Split.Throw (Split.KeyError "session_E"%string).
Proof.
  assert (HT : In "session_T"%string
                  (map fst (training_session_only "session"%string)))
    by (left; reflexivity).
  assert (HE : ~ In "session_E"%string
                    (map fst (training_session_only "session"%string)))
    by (intros [H|[]]; discriminate H).
  split; [exact HT|]. split; [exact HE|].
  exact (proj2 (proj2 (@Split.split_dataset_needs_both_sessions
                         nat four_fifths training_session_only)) HT HE).
Defined.


Lemma split_dataset_short_session_witness :
  Split.split_dataset four_fifths (sessions 10)
  = Split.Return (seq 0 10, train_of 10, valid_of 10, [7; 8]) /\
  length (seq 0 10) < 2592 /\
  four_fifths (length (seq 0 10)) <= length (seq 0 10) /\
  Split.Subset_getitem (valid_of 10) 2 = Split.Throw (Split.Other IndexError).
Proof.
  assert (H : Split.split_dataset four_fifths (sessions 10)
              = Split.Return (seq 0 10, train_of 10, valid_of 10, [7; 8]))
    by reflexivity.
  assert (H1 : length (seq 0 10) < 2592) by (vm_compute; lia).
  assert (H2 : four_fifths (length (seq 0 10)) <= length (seq 0 10))
    by (vm_compute; lia).
  split; [exact H|]. split; [exact H1|]. split; [exact H2|].
  apply (proj2 (proj2 (@Split.split_dataset_short_session
                         nat four_fifths (sessions 10) (seq 0 10) [7; 8]
                         (train_of 10) (valid_of 10) H H1 H2))).
  vm_compute. lia.
Defined.

Lemma split_dataset_long_session_witness :
  Split.split_dataset four_fifths (sessions 3000)
  = Split.Return (seq 0 3000, train_of 3000, valid_of 3000, [7; 8]) /\
  four_fifths (length (seq 0 3000)) <= 2592 /\
  2592 <= 2999 /\
  ~ In 2999 (Split.indices (train_of 3000)) /\
  ~ In 2999 (Split.indices (valid_of 3000)).
Proof.
  assert (H : Split.split_dataset four_fifths (sessions 3000)
              = Split.Return (seq 0 3000, train_of 3000, valid_of 3000, [7; 8]))
    by reflexivity.
  assert (H1 : four_fifths (length (seq 0 3000)) <= 2592) by (vm_compute; lia).
  assert (H2 : 2592 <= 2999) by lia.
  split; [exact H|]. split; [exact H1|]. split; [exact H2|].
  exact (@Split.split_dataset_long_session
           nat four_fifths (sessions 3000) (seq 0 3000) [7; 8]
           (train_of 3000) (valid_of 3000) 2999 H H1 H2).
Defined.

Lemma split_dataset_full_session_witness :
  Split.split_dataset four_fifths (sessions 2592)
  = Split.Return (seq 0 2592, train_of 2592, valid_of 2592, [7; 8]) /\
  length (seq 0 2592) = 2592 /\
  four_fifths 2592 <= 2592 /\
  exists train_items valid_items,
    Split.Subset_items (train_of 2592) = Split.Return train_items /\
    Split.Subset_items (valid_of 2592) = Split.Return valid_items /\
    train_items ++ valid_items = seq 0 2592 /\
    length train_items = four_fifths 2592.
Proof.
  assert (H : Split.split_dataset four_fifths (sessions 2592)
              = Split.Return (seq 0 2592, train_of 2592, valid_of 2592, [7; 8]))
    by reflexivity.
  assert (H1 : length (seq 0 2592) = 2592) by (vm_compute; reflexivity).
  assert (H2 : four_fifths 2592 <= 2592) by (vm_compute; lia).
  split; [exact H|]. split; [exact H1|]. split; [exact H2|].
  exact (@Split.split_dataset_full_session
           nat four_fifths (sessions 2592) (seq 0 2592) [7; 8]
           (train_of 2592) (valid_of 2592) H H1 H2).
Defined.

Lemma interaug_label_without_window_raises_witness :
  2 < 4 /\ nth_error balanced_labels 2 = Some (Z.of_nat 2) /\
  length [const_window 10; const_window 11] <= 2 /\
  exists e,
    demo_interaug [const_window 10; const_window 11] balanced_labels 4 [] = Raise e.
Proof.
  assert (H1 : 2 < 4) by lia.
  assert (H2 : nth_error balanced_labels 2 = Some (Z.of_nat 2)) by reflexivity.
  assert (H3 : length [const_window 10; const_window 11] <= 2) by (simpl; lia).
  split; [exact H1|]. split; [exact H2|]. split; [exact H3|].
  exact (@Augment.interaug_label_without_window_raises
           (list nat) next_tape Z 0%Z [const_window 10; const_window 11]
           balanced_labels 4 2 2 [] H1 H2 H3).
Defined.
